(** * Table.js: the data pipeline of the [Table] component

    A shallow embedding of [src/components/Table/Table.js]: schema
    derivation ([defineCategories]), record normalisation
    ([removeObjects]), colour theme derivation ([customColorTheme] and the
    [hexRegex] effect), sorting ([sortContent], [toggleSortOrder]),
    filtering ([filterContent]), pagination ([separatePages]) and cell
    rendering ([renderProperty]).

    Conventions of the embedding.
    - A JavaScript string is a [string]; the model covers strings of ASCII
      code units, on which [toUpperCase]/[toLowerCase] act letter by letter.
      On other characters the methods of the language do more (they map
      accented letters, and can change the length of the string): a
      statement that rests on how the case of a given string is changed
      assumes the string is ASCII ([isAsciiString]) or made of given
      ASCII letters.
    - A JavaScript object used as a record is an association list in
      property enumeration order (the order [for ... in] and
      [Object.values] follow), with unique keys.
    - [assign] gives a new property the place the language gives a new
      ordinary key, the last one.  The language enumerates array indices
      before the other keys, and an assignment to [__proto__] creates no
      property: a statement that rests on the place or on the presence of
      a new property assumes its key is ordinary ([ordinaryKey]).
    - A call that can throw returns a [result]; [TypeError] is the only
      exception this code raises.
    - React state is passed explicitly: a function that reads a state
      variable takes it as an argument, a function that ends in a setter
      returns the value it sets. *)

From Stdlib Require Import ZArith List String Ascii Bool Lia.
From Stdlib Require Import DecimalString SpecFloat Permutation Sorted.
From Equations Require Import Equations.
Import ListNotations.

Open Scope string_scope.
Open Scope list_scope.
Open Scope Z_scope.

(** ** Results and exceptions *)

Inductive exn := TypeError.

Inductive result (A : Type) :=
| Ok (a : A)
| Throw (e : exn).
Arguments Ok {A} a.
Arguments Throw {A} e.

Definition bind {A B} (r : result A) (k : A -> result B) : result B :=
  match r with
  | Ok a => k a
  | Throw e => Throw e
  end.

Notation "x <- c ;; k" := (bind c (fun x => k))
  (at level 61, c at next level, right associativity).
Notation "' pat <- c ;; k" := (bind c (fun x => match x with pat => k end))
  (at level 61, pat pattern, c at next level, right associativity).

(** [Array.prototype.map] with a callback that may throw: the callback runs
    on the elements from left to right and the first exception escapes. *)
Fixpoint mapM {A B} (f : A -> result B) (l : list A) : result (list B) :=
  match l with
  | [] => Ok []
  | a :: l' => b <- f a ;; bs <- mapM f l' ;; Ok (b :: bs)
  end.

(** [Array.prototype.filter] with a predicate that may throw. *)
Fixpoint filterM {A} (p : A -> result bool) (l : list A) : result (list A) :=
  match l with
  | [] => Ok []
  | a :: l' =>
      keep <- p a ;; rest <- filterM p l' ;;
      Ok (if keep then a :: rest else rest)
  end.

(** ** Values and objects *)

(** The values a row can hold.  [VNum n] is a number whose value is the
    integer [n]; function values are not represented. *)
#[warnings="-register-all"]
Inductive value :=
| VUndefined
| VNull
| VBool (b : bool)
| VNum (n : Z)
| VStr (s : string)
| VObj (props : list (string * value)).

(** An object: its own enumerable properties, in enumeration order. *)
Definition obj (V : Type) := list (string * V).

Definition row := obj value.

(** [o.hasOwnProperty(k)] *)
Fixpoint hasOwnProperty {V} (o : obj V) (k : string) : bool :=
  match o with
  | [] => false
  | (k', _) :: o' => if String.eqb k' k then true else hasOwnProperty o' k
  end.

(** [o[k]] on an object: [None] is [undefined].  Properties inherited from
    [Object.prototype] are functions; every use below treats a function
    as it treats [undefined], so they are not represented. *)
Fixpoint lookup {V} (o : obj V) (k : string) : option V :=
  match o with
  | [] => None
  | (k', v) :: o' => if String.eqb k' k then Some v else lookup o' k
  end.

(** [o[k] = v]: an existing property keeps its place, a new one is
    enumerated last.  This is the assignment of the language for every
    key the object has already, and for every new key that is ordinary
    ([ordinaryKey] below): a new key written with digits only can be an
    array index, which is enumerated before the other keys, and a new
    [__proto__] becomes no property at all. *)
Fixpoint assign {V} (o : obj V) (k : string) (v : V) : obj V :=
  match o with
  | [] => [(k, v)]
  | (k', v') :: o' =>
      if String.eqb k' k then (k', v) :: o' else (k', v') :: assign o' k v
  end.

(** [Object.keys(o)] and [Object.values(o)] *)
Definition keys {V} (o : obj V) : list string := map fst o.
Definition values {V} (o : obj V) : list V := map snd o.

(** [row[k]] as a value. *)
Definition get (r : row) (k : string) : value :=
  match lookup r k with
  | Some v => v
  | None => VUndefined
  end.

(** ** Strings *)

Definition isLower (c : ascii) : bool :=
  (("a" <=? c) && (c <=? "z"))%char.
Definition isUpper (c : ascii) : bool :=
  (("A" <=? c) && (c <=? "Z"))%char.
Definition isDigit (c : ascii) : bool :=
  (("0" <=? c) && (c <=? "9"))%char.

Definition charToUpper (c : ascii) : ascii :=
  if isLower c then ascii_of_nat (nat_of_ascii c - 32) else c.
Definition charToLower (c : ascii) : ascii :=
  if isUpper c then ascii_of_nat (nat_of_ascii c + 32) else c.

(** [s.toUpperCase()] and [s.toLowerCase()] on a string of ASCII code
    units ([isAsciiString] below): the letters a-z and A-Z change, every
    other ASCII character stays.  On a code unit above 127 the methods of
    the language do what these functions do not. *)
Fixpoint toUpperCase (s : string) : string :=
  match s with
  | EmptyString => EmptyString
  | String c s' => String (charToUpper c) (toUpperCase s')
  end.
Fixpoint toLowerCase (s : string) : string :=
  match s with
  | EmptyString => EmptyString
  | String c s' => String (charToLower c) (toLowerCase s')
  end.

(** The characters a [for (const letter of s)] loop visits, each as a
    one-character string. *)
Fixpoint letters (s : string) : list string :=
  match s with
  | EmptyString => []
  | String c s' => String c EmptyString :: letters s'
  end.

(** [s.includes(sub)] *)
Fixpoint includes (s sub : string) : bool :=
  String.prefix sub s ||
  match s with
  | EmptyString => false
  | String _ s' => includes s' sub
  end.

Fixpoint dropString (n : nat) (s : string) : string :=
  match n, s with
  | O, _ => s
  | S n', String _ s' => dropString n' s'
  | S _, EmptyString => EmptyString
  end.

(** The first occurrence of [pat] in [s]: the text before it and the text
    after it. *)
Fixpoint findFirst (pat s : string) : option (string * string) :=
  if String.prefix pat s then
    Some (EmptyString, dropString (String.length pat) s)
  else
    match s with
    | EmptyString => None
    | String c s' =>
        match findFirst pat s' with
        | Some (before, after) => Some (String c before, after)
        | None => None
        end
    end.

(** [GetSubstitution] for a string pattern: there are no captures, so of
    the dollar patterns only [$$], [$&], [$`] and [$'] are special. *)
Fixpoint getSubstitution (matched before after template : string) : string :=
  match template with
  | EmptyString => EmptyString
  | String "$" (String "$" t) =>
      String "$" (getSubstitution matched before after t)
  | String "$" (String "&" t) =>
      matched ++ getSubstitution matched before after t
  | String "$" (String "`" t) =>
      before ++ getSubstitution matched before after t
  | String "$" (String "'" t) =>
      after ++ getSubstitution matched before after t
  | String c t => String c (getSubstitution matched before after t)
  end.

(** [s.replace(pat, replacement)] with a string pattern: only the first
    occurrence is replaced. *)
Definition replace (s pat replacement : string) : string :=
  match findFirst pat s with
  | Some (before, after) =>
      before ++ getSubstitution pat before after replacement ++ after
  | None => s
  end.

(** Relative index of [slice]: a negative index counts from the end, and
    the result is clamped to [0 .. len]. *)
Definition relativeIndex (len i : Z) : Z :=
  if i <? 0 then Z.max (len + i) 0 else Z.min i len.

(** [a.slice(start, end)] on an array *)
Definition slice {A} (a : list A) (start end_ : Z) : list A :=
  let len := Z.of_nat (List.length a) in
  let k := relativeIndex len start in
  let final := relativeIndex len end_ in
  firstn (Z.to_nat (final - k)) (skipn (Z.to_nat k) a).

(** [s.slice(start, end)] on a string *)
Definition sliceString (s : string) (start end_ : Z) : string :=
  let len := Z.of_nat (String.length s) in
  let k := relativeIndex len start in
  let final := relativeIndex len end_ in
  String.substring (Z.to_nat k) (Z.to_nat (final - k)) s.

(** [String(n)] for an integer [n] *)
Definition stringOfZ (n : Z) : string := NilZero.string_of_int (Z.to_int n).

(** ** Paginator *)

(** The [while] loop of [separatePages]: [originalContent] is what is left
    to cut, [slices] the pages pushed so far. *)
Equations? separatePagesLoop {A} (rowsDisplayed : Z)
    (originalContent : list A) (slices : list (list A)) : list (list A)
    by wf (List.length originalContent) lt :=
  separatePagesLoop rowsDisplayed [] slices := slices;
  separatePagesLoop rowsDisplayed (x :: l) slices :=
    separatePagesLoop rowsDisplayed
      (slice (x :: l) (rowsDisplayed - 1) (-1))
      (slices ++ [slice (x :: l) 0 rowsDisplayed]).
Proof.
  unfold slice, relativeIndex. rewrite length_firstn, length_skipn.
  cbn [List.length].
  destruct (rowsDisplayed - 1 <? 0) eqn:E; cbn [Z.ltb Z.compare]; lia.
Qed.

(** [separatePages(content)] with the state variable [rowsDisplayed]; the
    result is what [setSeparatedContent] receives. *)
Definition separatePages {A} (rowsDisplayed : Z) (content : list A)
  : list (list A) :=
  separatePagesLoop rowsDisplayed content [].

(** Records numbered [0 .. n-1], to follow a record through the pages. *)
Definition records (n : nat) : list Z := map Z.of_nat (seq 0 n).


(** ** Schema deriver *)

(** A column: the raw key and the label shown in the header. *)
Record column := {
  category : string;
  formattedCategory : string
}.

Inductive sortOrder := SortNone | Ascending | Descending.

(** The [sorting] state: column key to sort order. *)
Definition sortingState := obj sortOrder.

(** First loop of [defineCategories]: the properties of the rows, each
    pushed to [tempCategories] the first time it is seen. *)
Definition collectCategories (content : list row) : list string :=
  fold_left
    (fun tempCategories object =>
       fold_left
         (fun temp property =>
            if existsb (String.eqb property) temp then temp
            else temp ++ [property])
         (keys object) tempCategories)
    content [].

(** The label of one category: the [for ... of] loop over its letters, then
    the replacement of the first character.  On the empty key
    [formattedCategory[0]] is [undefined] and [.toUpperCase()] throws. *)
Definition formatCategory (category : string) : result string :=
  let formattedCategory :=
    fold_left
      (fun formattedCategory letter =>
         if String.eqb letter (toUpperCase letter)
         then replace category letter (" " ++ toLowerCase letter)
         else formattedCategory)
      (letters category) category in
  match formattedCategory with
  | EmptyString => Throw TypeError
  | String c _ =>
      let first := String c EmptyString in
      Ok (replace formattedCategory first (toUpperCase first))
  end.

(** [defineCategories(content)]: what [setCategories] and [setSorting]
    receive. *)
Definition defineCategories (content : list row)
  : result (list column * sortingState) :=
  fold_left
    (fun acc category =>
       '(formattedCategories, initSorting) <- acc ;;
       formattedCategory <- formatCategory category ;;
       Ok (formattedCategories ++
             [{| category := category;
                 formattedCategory := formattedCategory |}],
           assign initSorting category SortNone))
    (collectCategories content) (Ok ([], [])).

(** ** Record normaliser *)

(** [v[k]] on an arbitrary value: reading a property of [undefined] or
    [null] throws; a string has its [length] and its characters; other
    primitives have no own data property. *)
Definition getProperty (v : value) (k : string) : result value :=
  match v with
  | VUndefined | VNull => Throw TypeError
  | VObj props =>
      Ok (match lookup props k with Some w => w | None => VUndefined end)
  | VStr s =>
      if String.eqb k "length" then Ok (VNum (Z.of_nat (String.length s)))
      else
        Ok (match find (fun i => String.eqb k (stringOfZ (Z.of_nat i)))
                    (seq 0 (String.length s)) with
            | Some i =>
                match String.get i s with
                | Some c => VStr (String c EmptyString)
                | None => VUndefined
                end
            | None => VUndefined
            end)
  | VBool _ | VNum _ => Ok VUndefined
  end.

(** The body of the [forEach] callback of [removeObjects]: one row.  The
    prop [objectKey] is [None] when the caller did not pass it; then
    [objectKey.hasOwnProperty(property)] is a method call on [undefined],
    which throws. *)
Definition removeObjectsRow (objectKey : option (obj string)) (object : row)
  : result row :=
  fold_left
    (fun acc property =>
       newObject <- acc ;;
       match objectKey with
       | None => Throw TypeError
       | Some key =>
           if hasOwnProperty key property then
             let replacementProperty :=
               match lookup key property with
               | Some sub => sub
               | None => "undefined"
               end in
             v <- getProperty (get object property) replacementProperty ;;
             Ok (assign newObject property v)
           else Ok (assign newObject property (get object property))
       end)
    (keys object) (Ok []).

(** [removeObjects(content)]: what [setFormattedContent] receives. *)
Definition removeObjects (objectKey : option (obj string))
    (content : list row) : result (list row) :=
  mapM (removeObjectsRow objectKey) content.

(** ** Colour theme deriver *)

Record colorTheme := {
  bright : string;
  light : string;
  text : string
}.

(** The initial value of the [colorTheme] state. *)
Definition defaultColorTheme : colorTheme :=
  {| bright := "rgba(139, 134, 128, 1)";
     light := "rgba(139, 134, 128, 0.2)";
     text := "white" |}.

Definition isAlnum (c : ascii) : bool := isDigit c || isLower c || isUpper c.

(** [hexRegex.test(color)] for
    [/^#[0-9a-zA-Z]{3}(?:[0-9a-zA-Z]{3})?$/]. *)
Definition hexRegexTest (color : string) : bool :=
  match color with
  | String "#" rest =>
      forallb isAlnum (list_ascii_of_string rest) &&
      ((String.length rest =? 3)%nat || (String.length rest =? 6)%nat)
  | _ => false
  end.

Definition hexDigitValue (c : ascii) : option Z :=
  let code := Z.of_nat (nat_of_ascii c) in
  if isDigit c then Some (code - 48)
  else if (("a" <=? c) && (c <=? "f"))%char then Some (code - 87)
  else if (("A" <=? c) && (c <=? "F"))%char then Some (code - 55)
  else None.

Definition isWhiteSpace (c : ascii) : bool :=
  let code := nat_of_ascii c in
  ((9 <=? code) && (code <=? 13) || (code =? 32))%nat.

Fixpoint trimStart (s : string) : string :=
  match s with
  | String c s' => if isWhiteSpace c then trimStart s' else s
  | EmptyString => s
  end.

(** The longest prefix of hexadecimal digits, as a number; [None] when
    there is none. *)
Fixpoint parseHexDigits (acc : option Z) (s : string) : option Z :=
  match s with
  | EmptyString => acc
  | String c s' =>
      match hexDigitValue c with
      | Some d =>
          parseHexDigits
            (Some (16 * match acc with Some a => a | None => 0 end + d)) s'
      | None => acc
      end
  end.

(** A JavaScript number that is an integer or [NaN] ([None]). *)
Definition number := option Z.

(** [parseInt(s, 16)]: leading white space and a sign are skipped, then a
    [0x]/[0X] prefix is removed, then the longest prefix of hexadecimal
    digits is read; with no digit the result is [NaN]. *)
Definition parseInt16 (s : string) : number :=
  let s1 := trimStart s in
  let '(sign, s2) :=
    match s1 with
    | String "-" t => (-1, t)
    | String "+" t => (1, t)
    | _ => (1, s1)
    end in
  let s3 :=
    match s2 with
    | String "0" (String "x" t) => t
    | String "0" (String "X" t) => t
    | _ => s2
    end in
  option_map (Z.mul sign) (parseHexDigits None s3).

(** A number inside a template literal. *)
Definition numberToString (n : number) : string :=
  match n with
  | Some z => stringOfZ z
  | None => "NaN"
  end.

(** IEEE 754 binary64, the arithmetic of JavaScript numbers. *)
Definition prec : Z := 53.
Definition emax : Z := 1024.
Definition float := spec_float.
Definition floatOfZ (z : Z) : float := binary_normalize prec emax z 0 false.
Definition floatOfNumber (n : number) : float :=
  match n with
  | Some z => floatOfZ z
  | None => S754_nan
  end.
Definition fmul : float -> float -> float := SFmul prec emax.
Definition fadd : float -> float -> float := SFadd prec emax.
Definition fdiv : float -> float -> float := SFdiv prec emax.

(** The decimal literal [num / den] for integers below [2^53]: both are
    exact as floats and the division rounds the quotient correctly, as
    reading the literal does. *)
Definition decimalLiteral (num den : Z) : float :=
  fdiv (floatOfZ num) (floatOfZ den).

(** [(0.2126 * r + 0.7152 * g + 0.0722 * b) / 255] *)
Definition relativeLuminance (r g b : number) : float :=
  fdiv
    (fadd
       (fadd (fmul (decimalLiteral 2126 10000) (floatOfNumber r))
             (fmul (decimalLiteral 7152 10000) (floatOfNumber g)))
       (fmul (decimalLiteral 722 10000) (floatOfNumber b)))
    (floatOfZ 255).

(** The shorthand loop of [customColorTheme]: it runs over the letters of
    the original string and replaces in the string built so far. *)
Definition expandShorthand (hex : string) : string :=
  if (String.length hex =? 4)%nat then
    fold_left
      (fun newHex letter =>
         if negb (String.eqb letter "#")
         then replace newHex letter (letter ++ letter)
         else newHex)
      (letters hex) hex
  else hex.

Definition rgba (r g b : number) (alpha : string) : string :=
  "rgba(" ++ numberToString r ++ ", " ++ numberToString g ++ ", "
          ++ numberToString b ++ ", " ++ alpha ++ ")".

(** [customColorTheme(hex)]: what [setColorTheme] receives. *)
Definition customColorTheme (hex : string) : colorTheme :=
  let newHex := expandShorthand hex in
  let r := parseInt16 (sliceString newHex 1 3) in
  let g := parseInt16 (sliceString newHex 3 5) in
  let b := parseInt16 (sliceString newHex 5 7) in
  {| bright := rgba r g b "1";
     light := rgba r g b "0.2";
     text := if SFltb (decimalLiteral 5 10) (relativeLuminance r g b)
             then "black"
             else "white" |}.

(** The effect on the prop [color], which is [None] when the caller did
    not pass it ([test] then reads the string [undefined]): the theme is
    replaced only when the pattern accepts the colour. *)
Definition colorEffect (theme : colorTheme) (color : option string)
  : colorTheme :=
  let tested := match color with Some c => c | None => "undefined" end in
  if hexRegexTest tested then customColorTheme tested else theme.

(** ** Sort engine *)

(** The host's collation: [a.localeCompare(b)] is negative, zero or
    positive. *)
Class Collator := { localeCompare : string -> string -> Z }.

(** The laws of a collation: a total preorder read through the sign. *)
Class CollatorLaws `{Collator} : Prop := {
  localeCompare_refl : forall a, localeCompare a a = 0;
  localeCompare_flip :
    forall a b, localeCompare a b <= 0 \/ localeCompare b a <= 0;
  localeCompare_trans : forall a b c,
    localeCompare a b <= 0 -> localeCompare b c <= 0 -> localeCompare a c <= 0
}.

(** Comparison of strings by code unit, a collation to compute with. *)
Fixpoint codeUnitCompare (a b : string) : Z :=
  match a, b with
  | EmptyString, EmptyString => 0
  | EmptyString, String _ _ => -1
  | String _ _, EmptyString => 1
  | String x a', String y b' =>
      match (nat_of_ascii x ?= nat_of_ascii y)%nat with
      | Lt => -1
      | Gt => 1
      | Eq => codeUnitCompare a' b'
      end
  end.

(** [v.toLowerCase()] on the value of a cell: only a string has the
    method. *)
Definition toLowerCaseOf (v : value) : result string :=
  match v with
  | VStr s => Ok (toLowerCase s)
  | _ => Throw TypeError
  end.

(** [sorting[category] === order] *)
Definition orderIs (sorting : sortingState) (category : string)
    (order : sortOrder) : bool :=
  match lookup sorting category, order with
  | Some SortNone, SortNone => true
  | Some Ascending, Ascending => true
  | Some Descending, Descending => true
  | _, _ => false
  end.

(** The comparator that [sortContent] passes to [sort]. *)
Definition compareRows `{Collator} (sorting : sortingState)
    (category : string) (toggleOrder : bool) (a b : row) : result Z :=
  if ((orderIs sorting category SortNone ||
       orderIs sorting category Descending) && toggleOrder)
     || (orderIs sorting category Ascending && negb toggleOrder)
  then
    x <- toLowerCaseOf (get a category) ;;
    y <- toLowerCaseOf (get b category) ;;
    Ok (localeCompare x y)
  else
    y <- toLowerCaseOf (get b category) ;;
    x <- toLowerCaseOf (get a category) ;;
    Ok (localeCompare y x).

(** [Array.prototype.sort] with a comparator that may throw.  The language
    fixes the result for a consistent comparator, a stable sort, and leaves
    the sequence of comparator calls to the engine; the model is a stable
    insertion sort.  An array of fewer than two elements is returned
    without a call, a longer one has every element compared at least
    once, and an exception of the comparator escapes. *)
Fixpoint insertM {A} (cmp : A -> A -> result Z) (x : A) (l : list A)
  : result (list A) :=
  match l with
  | [] => Ok [x]
  | y :: l' =>
      c <- cmp x y ;;
      if c <=? 0 then Ok (x :: y :: l')
      else rest <- insertM cmp x l' ;; Ok (y :: rest)
  end.

Fixpoint sortM {A} (cmp : A -> A -> result Z) (l : list A)
  : result (list A) :=
  match l with
  | [] => Ok []
  | x :: l' => sorted <- sortM cmp l' ;; insertM cmp x sorted
  end.

(** [sortContent(content, category, toggleOrder)] with the state variable
    [sorting]. *)
Definition sortContent `{Collator} (sorting : sortingState)
    (content : list row) (category : string) (toggleOrder : bool)
  : result (list row) :=
  sortM (compareRows sorting category toggleOrder) content.

(** [toggleSortOrder(category)]: what [setSorting] receives. *)
Definition toggleSortOrder (sorting : sortingState) (category : string)
  : sortingState :=
  let newSorting :=
    map (fun '(sortingCategory, _) => (sortingCategory, SortNone)) sorting in
  if orderIs sorting category SortNone || orderIs sorting category Descending
  then assign newSorting category Ascending
  else assign newSorting category Descending.

(** The click on a column header: the new [filteredContent] and the new
    [sorting]. *)
Definition sortClick `{Collator} (sorting : sortingState)
    (filteredContent : list row) (category : string)
  : result (list row * sortingState) :=
  sorted <- sortContent sorting filteredContent category true ;;
  Ok (sorted, toggleSortOrder sorting category).

(** ** Filter engine *)

(** The predicate of [content.filter] in [filterContent]. *)
Definition rowMatches (query : string) (r : row) : result bool :=
  rowValues <-
    mapM (fun v =>
            lowered <- toLowerCaseOf v ;;
            Ok (includes lowered (toLowerCase query)))
         (values r) ;;
  Ok (existsb (Bool.eqb true) rowValues).

(** The [for ... in] loop over [sorting]: the first category whose order
    is not [none]. *)
Definition activeCategory (sorting : sortingState) : option string :=
  match find (fun '(category, _) => negb (orderIs sorting category SortNone))
             sorting with
  | Some (category, _) => Some category
  | None => None
  end.

(** [filterContent(query, content)] with the state variable [sorting]. *)
Definition filterContent `{Collator} (sorting : sortingState)
    (query : string) (content : list row) : result (list row) :=
  newContent <- filterM (rowMatches query) content ;;
  match activeCategory sorting with
  | Some category => sortContent sorting newContent category false
  | None => Ok newContent
  end.

(** ** Value renderer *)

(** The part of [dayjs] that [renderProperty] calls, on [dayjs(v)]. *)
Class Dayjs := {
  isValid : value -> bool;
  toISOString : value -> string;
  format : value -> string -> string
}.

(** [v === s] for a string [s] *)
Definition strictEqualsString (v : value) (s : string) : bool :=
  match v with
  | VStr t => String.eqb t s
  | _ => false
  end.

(** [renderProperty(row, category)] with the prop [dateFormat], [None]
    when the caller did not pass it; a function that returns nothing
    yields [undefined]. *)
Definition renderProperty `{Dayjs} (dateFormat : option string)
    (r : row) (c : column) : value :=
  if hasOwnProperty r (category c) then
    let v := get r (category c) in
    if isValid v && strictEqualsString v (toISOString v) then
      match dateFormat with
      | Some pattern =>
          if negb (String.eqb pattern "") then VStr (format v pattern)
          else VStr (format v "DD/MM/YYYY")
      | None => VStr (format v "DD/MM/YYYY")
      end
    else v
  else VUndefined.

(** ** A reference [dayjs]

    [dayjs] is a dependency of the component, not part of it.  The
    reference below follows its documented behaviour on a host whose local
    time is [utcOffset] minutes east of UTC and whose clock reads [now]:
    time values are milliseconds since the epoch; [toISOString] is that of
    [Date]; [format] reads the local fields.  Of the strings it parses only
    those in the full ISO form with the [Z] suffix, the only ones
    [toISOString] returns: dayjs reads other strings too, but as its
    [toISOString] then differs from the string, [renderProperty] leaves
    them as they are either way. *)

(** Days since the epoch of a civil date. *)
Definition daysFromCivil (y m d : Z) : Z :=
  let y' := if m <=? 2 then y - 1 else y in
  let era := y' / 400 in
  let yoe := y' - era * 400 in
  let mp := if m >? 2 then m - 3 else m + 9 in
  let doy := (153 * mp + 2) / 5 + d - 1 in
  let doe := yoe * 365 + yoe / 4 - yoe / 100 + doy in
  era * 146097 + doe - 719468.

(** The civil date of a day number: year, month, day. *)
Definition civilFromDays (days : Z) : Z * Z * Z :=
  let z := days + 719468 in
  let era := z / 146097 in
  let doe := z - era * 146097 in
  let yoe := (doe - doe / 1460 + doe / 36524 - doe / 146096) / 365 in
  let doy := doe - (365 * yoe + yoe / 4 - yoe / 100) in
  let mp := (5 * doy + 2) / 153 in
  let d := doy - (153 * mp + 2) / 5 + 1 in
  let m := if mp <? 10 then mp + 3 else mp - 9 in
  ((if m <=? 2 then yoe + era * 400 + 1 else yoe + era * 400), m, d).

Definition msPerDay : Z := 86400000.

(** The fields of a time value read at an offset of [offset] minutes. *)
Record dateFields := {
  fYear : Z; fMonth : Z; fDay : Z; fWeekday : Z;
  fHour : Z; fMinute : Z; fSecond : Z; fMillisecond : Z
}.

Definition fieldsAt (offset t : Z) : dateFields :=
  let local := t + offset * 60000 in
  let days := local / msPerDay in
  let ms := local mod msPerDay in
  let '(y, m, d) := civilFromDays days in
  {| fYear := y; fMonth := m; fDay := d;
     fWeekday := (days + 4) mod 7;
     fHour := ms / 3600000;
     fMinute := (ms / 60000) mod 60;
     fSecond := (ms / 1000) mod 60;
     fMillisecond := ms mod 1000 |}.

Fixpoint repeatString (n : nat) (pad : string) : string :=
  match n with
  | O => EmptyString
  | S n' => (pad ++ repeatString n' pad)%string
  end.

(** [padStart(s, length, pad)] of dayjs, for a one-character [pad]. *)
Definition padStart (s : string) (len : nat) (pad : string) : string :=
  (repeatString (len - String.length s) pad ++ s)%string.

Definition digits (n : Z) (len : nat) : string :=
  padStart (stringOfZ n) len "0".

(** [Date.prototype.toISOString] of a time value. *)
Definition isoStringOf (t : Z) : string :=
  let f := fieldsAt 0 t in
  let sign := if fYear f <? 0 then "-" else "+" in
  let year :=
    if (0 <=? fYear f) && (fYear f <=? 9999) then digits (fYear f) 4
    else (sign ++ digits (Z.abs (fYear f)) 6)%string in
  (year ++ "-" ++ digits (fMonth f) 2 ++ "-" ++ digits (fDay f) 2 ++ "T"
       ++ digits (fHour f) 2 ++ ":" ++ digits (fMinute f) 2 ++ ":"
       ++ digits (fSecond f) 2 ++ "." ++ digits (fMillisecond f) 3
       ++ "Z")%string.

(** A run of decimal digits as a number; [None] if another character
    occurs or the run is empty. *)
Fixpoint readDigits (acc : option Z) (s : string) : option Z :=
  match s with
  | EmptyString => acc
  | String c s' =>
      if isDigit c then
        readDigits
          (Some (10 * match acc with Some a => a | None => 0 end
                 + (Z.of_nat (nat_of_ascii c) - 48))) s'
      else None
  end.

Definition field (s : string) (start len : nat) : option Z :=
  if (start + len <=? String.length s)%nat
  then readDigits None (String.substring start len s)
  else None.

Definition isLeapYear (y : Z) : bool :=
  ((y mod 4 =? 0) && negb (y mod 100 =? 0)) || (y mod 400 =? 0).

Definition daysInMonth (y m : Z) : Z :=
  if m =? 2 then (if isLeapYear y then 29 else 28)
  else if (m =? 4) || (m =? 6) || (m =? 9) || (m =? 11) then 30
  else 31.

Definition maxTimeValue : Z := 8640000000000000.

(** [Date.parse] on the part after the year, [-MM-DDTHH:mm:ss.sssZ]. *)
Definition parseIsoRest (year : Z) (s : string) : option Z :=
  match field s 1 2, field s 4 2, field s 7 2, field s 10 2, field s 13 2,
        field s 16 3 with
  | Some m, Some d, Some h, Some mi, Some sec, Some ms =>
      let separators :=
        String.eqb (String.substring 0 1 s) "-" &&
        String.eqb (String.substring 3 1 s) "-" &&
        String.eqb (String.substring 6 1 s) "T" &&
        String.eqb (String.substring 9 1 s) ":" &&
        String.eqb (String.substring 12 1 s) ":" &&
        String.eqb (String.substring 15 1 s) "." &&
        String.eqb (String.substring 19 1 s) "Z" &&
        (String.length s =? 20)%nat in
      let inRange :=
        (1 <=? m) && (m <=? 12) && (1 <=? d) && (d <=? daysInMonth year m) &&
        ((h <=? 23) && (mi <=? 59) && (sec <=? 59)
         || (h =? 24) && (mi =? 0) && (sec =? 0) && (ms =? 0)) in
      let t := daysFromCivil year m d * msPerDay
               + h * 3600000 + mi * 60000 + sec * 1000 + ms in
      if separators && inRange && (Z.abs t <=? maxTimeValue)
      then Some t else None
  | _, _, _, _, _, _ => None
  end.

(** [Date.parse] on a string in the full ISO form: a four-digit year, or a
    sign and a six-digit year other than [-000000]. *)
Definition parseIso (s : string) : option Z :=
  match s with
  | String "+" _ =>
      match field s 1 6 with
      | Some y => parseIsoRest y (dropString 7 s)
      | None => None
      end
  | String "-" _ =>
      match field s 1 6 with
      | Some y => if y =? 0 then None else parseIsoRest (- y) (dropString 7 s)
      | None => None
      end
  | _ =>
      match field s 0 4 with
      | Some y => parseIsoRest y (dropString 4 s)
      | None => None
      end
  end.

(** The time value of [dayjs(v)]; [None] is an invalid date.  With no
    argument dayjs reads the clock; [null] and objects give no date;
    numbers and booleans are time values. *)
Definition timeValue (now : Z) (v : value) : option Z :=
  match v with
  | VUndefined => Some now
  | VNull => None
  | VBool b => Some (if b then 1 else 0)
  | VNum n => if Z.abs n <=? maxTimeValue then Some n else None
  | VStr s => parseIso s
  | VObj _ => None
  end.

Definition monthNames : list string :=
  ["January"; "February"; "March"; "April"; "May"; "June"; "July";
   "August"; "September"; "October"; "November"; "December"].

Definition weekdayNames : list string :=
  ["Sunday"; "Monday"; "Tuesday"; "Wednesday"; "Thursday"; "Friday";
   "Saturday"].

Definition nameAt (names : list string) (i : Z) : string :=
  nth (Z.to_nat i) names EmptyString.

(** The zone of the host, [+HH:mm]. *)
Definition zoneString (utcOffset : Z) : string :=
  let minutes := Z.abs utcOffset in
  let sign := if 0 <=? utcOffset then "+" else "-" in
  (sign ++ digits (minutes / 60) 2 ++ ":" ++ digits (minutes mod 60) 2)%string.

Definition zoneStringCompact (utcOffset : Z) : string :=
  replace (zoneString utcOffset) ":" "".

(** The number of leading characters of [s] equal to [c], up to [limit]. *)
Fixpoint countRun (c : ascii) (s : string) (limit : nat) : nat :=
  match limit, s with
  | S limit', String c' s' =>
      if Ascii.eqb c c' then S (countRun c s' limit') else O
  | _, _ => O
  end.

(** The longest run of one letter that is a token of [format]. *)
Definition runLimit (c : ascii) : nat :=
  if Ascii.eqb c "Y" || Ascii.eqb c "M" || Ascii.eqb c "d" then 4
  else if Ascii.eqb c "D" || Ascii.eqb c "H" || Ascii.eqb c "h"
          || Ascii.eqb c "m" || Ascii.eqb c "s" || Ascii.eqb c "Z" then 2
  else if Ascii.eqb c "a" || Ascii.eqb c "A" then 1
  else O.

(** The text [format] puts for a run of [n] letters [c]; a run that is no
    token of its own ([Y], [YYY], [ZZ]) gives the compact zone. *)
Definition tokenText (f : dateFields) (utcOffset : Z) (c : ascii) (n : nat)
  : string :=
  let hour12 := if fHour f mod 12 =? 0 then 12 else fHour f mod 12 in
  let year := stringOfZ (fYear f) in
  match c, n with
  | "Y"%char, 2%nat => sliceString year (-2) (Z.of_nat (String.length year))
  | "Y"%char, 4%nat => digits (fYear f) 4
  | "M"%char, 1%nat => stringOfZ (fMonth f)
  | "M"%char, 2%nat => digits (fMonth f) 2
  | "M"%char, 3%nat => sliceString (nameAt monthNames (fMonth f - 1)) 0 3
  | "M"%char, 4%nat => nameAt monthNames (fMonth f - 1)
  | "D"%char, 1%nat => stringOfZ (fDay f)
  | "D"%char, 2%nat => digits (fDay f) 2
  | "d"%char, 1%nat => stringOfZ (fWeekday f)
  | "d"%char, 2%nat => sliceString (nameAt weekdayNames (fWeekday f)) 0 2
  | "d"%char, 3%nat => sliceString (nameAt weekdayNames (fWeekday f)) 0 3
  | "d"%char, 4%nat => nameAt weekdayNames (fWeekday f)
  | "H"%char, 1%nat => stringOfZ (fHour f)
  | "H"%char, 2%nat => digits (fHour f) 2
  | "h"%char, 1%nat => stringOfZ hour12
  | "h"%char, 2%nat => digits hour12 2
  | "a"%char, 1%nat => if fHour f <? 12 then "am" else "pm"
  | "A"%char, 1%nat => if fHour f <? 12 then "AM" else "PM"
  | "m"%char, 1%nat => stringOfZ (fMinute f)
  | "m"%char, 2%nat => digits (fMinute f) 2
  | "s"%char, 1%nat => stringOfZ (fSecond f)
  | "s"%char, 2%nat => digits (fSecond f) 2
  | "Z"%char, 1%nat => zoneString utcOffset
  | _, _ => zoneStringCompact utcOffset
  end.

(** One match of the token pattern of [format] at the head of [p], or one
    character copied: the text put and the rest of [p].  A bracketed
    stretch is copied without its brackets. *)
Definition nextToken (f : dateFields) (utcOffset : Z) (p : string)
  : string * string :=
  match p with
  | EmptyString => (EmptyString, EmptyString)
  | String c rest =>
      let literal := (String c EmptyString, rest) in
      if Ascii.eqb c "[" then
        match findFirst "]" rest with
        | Some (String i inner, after) => (String i inner, after)
        | _ => literal
        end
      else if Ascii.eqb c "S" then
        if (countRun c p 3 =? 3)%nat
        then (digits (fMillisecond f) 3, dropString 3 p)
        else literal
      else
        match countRun c p (runLimit c) with
        | O => literal
        | n => (tokenText f utcOffset c n, dropString n p)
        end
  end.

(** The replacement loop of [format]; every step takes at least one
    character, so the length of the pattern is fuel enough. *)
Fixpoint formatLoop (fuel : nat) (f : dateFields) (utcOffset : Z)
    (p : string) : string :=
  match fuel, p with
  | S fuel', String _ _ =>
      let '(put, rest) := nextToken f utcOffset p in
      (put ++ formatLoop fuel' f utcOffset rest)%string
  | _, _ => EmptyString
  end.

Definition formatTime (utcOffset t : Z) (pattern : string) : string :=
  let p := if String.eqb pattern "" then "YYYY-MM-DDTHH:mm:ssZ" else pattern in
  formatLoop (String.length p) (fieldsAt utcOffset t) utcOffset p.

(** The reference [dayjs] of a host.  [toISOString] throws on an invalid
    date; [renderProperty] reads it only behind [isValid]. *)
Definition dayjsHost (utcOffset now : Z) : Dayjs :=
  {| isValid v :=
       match timeValue now v with Some _ => true | None => false end;
     toISOString v :=
       match timeValue now v with
       | Some t => isoStringOf t
       | None => EmptyString
       end;
     format v pattern :=
       match timeValue now v with
       | Some t => formatTime utcOffset t pattern
       | None => "Invalid Date"
       end |}.

(** ** The properties stated of the pipeline *)

(** The label as the specification words it: a space before every
    uppercase letter, that letter lowercased, then the first character of
    the result uppercased. *)
Fixpoint splitCamelCase (key : string) : string :=
  match key with
  | EmptyString => EmptyString
  | String c key' =>
      if isUpper c
      then String " " (String (charToLower c) (splitCamelCase key'))
      else String c (splitCamelCase key')
  end.

Definition specLabel (key : string) : string :=
  match splitCamelCase key with
  | EmptyString => EmptyString
  | String c rest => String (charToUpper c) rest
  end.

(** The shorthand expansion as the specification words it: every digit
    after the [#] doubled. *)
Fixpoint doubleEach (s : string) : string :=
  match s with
  | EmptyString => EmptyString
  | String c s' => String c (String c (doubleEach s'))
  end.

Definition specExpand (hex : string) : string :=
  match hex with
  | String "#" rest =>
      if (String.length rest =? 3)%nat then String "#" (doubleEach rest)
      else hex
  | _ => hex
  end.

(** The cycle of one column under repeated toggling. *)
Definition nextOrder (order : sortOrder) : sortOrder :=
  match order with
  | SortNone => Ascending
  | Ascending => Descending
  | Descending => Ascending
  end.

(** The test at the head of the comparator: whether the rows are compared
    in ascending order. *)
Definition comparesAscending (sorting : sortingState) (category : string)
    (toggleOrder : bool) : bool :=
  ((orderIs sorting category SortNone ||
    orderIs sorting category Descending) && toggleOrder)
  || (orderIs sorting category Ascending && negb toggleOrder).

(** The comparison of two rows by a column in a given direction:
    ascending is the collation of the lowercased values, descending its
    reverse. *)
Definition compareIn `{Collator} (order : sortOrder) (category : string)
    (a b : row) : result Z :=
  match order with
  | Ascending =>
      x <- toLowerCaseOf (get a category) ;;
      y <- toLowerCaseOf (get b category) ;;
      Ok (localeCompare x y)
  | _ =>
      y <- toLowerCaseOf (get b category) ;;
      x <- toLowerCaseOf (get a category) ;;
      Ok (localeCompare y x)
  end.

(** [a] may stand before [b] in an array sorted with [cmp]: the comparator
    returns a number that is not positive. *)
Definition comesBefore {A} (cmp : A -> A -> result Z) (a b : A) : Prop :=
  exists c, cmp a b = Ok c /\ c <= 0.

(** Row [a] may stand before row [b] when the column is sorted in the
    given direction. *)
Definition inOrder `{Collator} (order : sortOrder) (category : string)
    (a b : row) : Prop :=
  exists x y, get a category = VStr x /\ get b category = VStr y /\
    match order with
    | Ascending => localeCompare (toLowerCase x) (toLowerCase y) <= 0
    | _ => localeCompare (toLowerCase y) (toLowerCase x) <= 0
    end.

(** A row the filter and the sort can read: at least one property, and
    strings only. *)
Definition isStringValue (v : value) : bool :=
  match v with
  | VStr _ => true
  | _ => false
  end.

Definition stringRow (r : row) : bool :=
  negb (Nat.eqb (List.length r) 0) && forallb isStringValue (values r).

(** A row the flatten map [key] does not touch: its properties have
    distinct names, none of them in the map. *)
Definition untouched (key : obj string) (object : row) : Prop :=
  NoDup (keys object) /\
  forall property,
    In property (keys object) -> hasOwnProperty key property = false.

(** A well-formed colour token: [rgba(r, g, b, a)] with [r], [g] and [b]
    runs of decimal digits and [a] one of the two alphas the theme uses. *)
Definition isDecimal (s : string) : bool :=
  negb (String.eqb s "") && forallb isDigit (list_ascii_of_string s).

Definition splitOnce (sep s : string) : string * string :=
  match findFirst sep s with
  | Some (before, after) => (before, after)
  | None => (s, EmptyString)
  end.

Definition wellFormedColor (s : string) : bool :=
  String.prefix "rgba(" s &&
  let body := dropString 5 s in
  let '(r, rest1) := splitOnce ", " body in
  let '(g, rest2) := splitOnce ", " rest1 in
  let '(b, rest3) := splitOnce ", " rest2 in
  isDecimal r && isDecimal g && isDecimal b &&
  (String.eqb rest3 "1)" || String.eqb rest3 "0.2)").

(** The characters the pattern admits after the [#]. *)
Definition alnumChars : list ascii :=
  filter isAlnum (map ascii_of_nat (seq 0 256)).

(** The shorthand colour of three digits. *)
Definition shorthand (x y z : ascii) : string :=
  String "#" (String x (String y (String z EmptyString))).

#[export] Instance codeUnitCollator : Collator :=
  {| localeCompare := codeUnitCompare |}.

(** The pattern [renderProperty] formats a date with: the prop
    [dateFormat] when it is given and not empty, [DD/MM/YYYY] otherwise. *)
Definition effectiveFormat (dateFormat : option string) : string :=
  match dateFormat with
  | Some pattern => if String.eqb pattern "" then "DD/MM/YYYY" else pattern
  | None => "DD/MM/YYYY"
  end.

(** The rows and columns of the worked examples. *)
Definition isoDate : string := "2023-05-01T00:00:00.000Z".
Definition dateColumn : column :=
  {| category := "date"; formattedCategory := "Date" |}.
Definition dateRow : row := [("date", VStr isoDate)].
Definition nameSorting (order : sortOrder) : sortingState :=
  [("name", order); ("city", SortNone)].
Definition person (name city : string) : row :=
  [("name", VStr name); ("city", VStr city)].

(** ** The view: pages, counter and navigation *)

(** [a[i]] on an array: [None] is [undefined]. *)
Definition item {A} (a : list A) (i : Z) : option A :=
  if i <? 0 then None else nth_error a (Z.to_nat i).

(** [a.indexOf(x)] with [same] for the strict equality of the elements;
    the arrays hold row objects, so [undefined] is never found. *)
Fixpoint indexOfFrom {A} (same : A -> A -> bool) (a : list A) (x : A)
    (i : Z) : Z :=
  match a with
  | [] => -1
  | y :: a' => if same y x then i else indexOfFrom same a' x (i + 1)
  end.

Definition indexOf {A} (same : A -> A -> bool) (a : list A) (x : option A)
  : Z :=
  match x with
  | Some x => indexOfFrom same a x 0
  | None => -1
  end.

(** The two state variables the table body and the footer read:
    [separatedContent], [None] while it is [null], and [currentPage]. *)
Record view (A : Type) := {
  separatedContent : option (list (list A));
  currentPage : Z
}.
Arguments separatedContent {A} v.
Arguments currentPage {A} v.

Definition initialView {A} : view A :=
  {| separatedContent := None; currentPage := 0 |}.

(** [separatedContent && separatedContent.length > 0], the test that
    chooses between the rows and the no-result row, and that shows the
    footer. *)
Definition hasPages {A} (v : view A) : bool :=
  match separatedContent v with
  | Some (_ :: _) => true
  | _ => false
  end.

(** [separatedContent[currentPage]], read where [hasPages] holds; a
    property of [undefined] cannot be read. *)
Definition currentRows {A} (v : view A) : result (list A) :=
  match separatedContent v with
  | Some pages =>
      match item pages (currentPage v) with
      | Some page => Ok page
      | None => Throw TypeError
      end
  | None => Throw TypeError
  end.

(** The effect on [rowsDisplayed] and [filteredContent]: nothing while
    [filteredContent] is [null], else the first page of the new pages. *)
Definition pageEffect {A} (rowsDisplayed : Z)
    (filteredContent : option (list A)) (v : view A) : view A :=
  match filteredContent with
  | Some content =>
      {| separatedContent := Some (separatePages rowsDisplayed content);
         currentPage := 0 |}
  | None => v
  end.

(** The two buttons of the footer: whether each is rendered, and what its
    click sets. *)
Definition previousShown {A} (v : view A) : bool :=
  hasPages v && negb (currentPage v =? 0).

Definition nextShown {A} (v : view A) : bool :=
  hasPages v &&
  match separatedContent v with
  | Some pages =>
      negb (currentPage v =? Z.of_nat (List.length pages) - 1)
  | None => false
  end.

Definition clickPrevious {A} (v : view A) : view A :=
  {| separatedContent := separatedContent v;
     currentPage := currentPage v - 1 |}.

Definition clickNext {A} (v : view A) : view A :=
  {| separatedContent := separatedContent v;
     currentPage := currentPage v + 1 |}.

(** What can happen to the view: a recomputation of the pages, or a click
    on a button that is rendered. *)
Inductive viewStep {A} : view A -> view A -> Prop :=
| stepEffect (rowsDisplayed : Z) (filteredContent : option (list A)) v :
    viewStep v (pageEffect rowsDisplayed filteredContent v)
| stepPrevious v :
    previousShown v = true -> viewStep v (clickPrevious v)
| stepNext v :
    nextShown v = true -> viewStep v (clickNext v).

Inductive viewReachable {A} : view A -> Prop :=
| reachInitial : viewReachable initialView
| reachStep v v' : viewReachable v -> viewStep v v' -> viewReachable v'.

(** The counter of the footer, [Showing from to to of total entries]. *)
Definition showingFrom {A} (same : A -> A -> bool)
    (filteredContent : list A) (v : view A) : result Z :=
  page <- currentRows v ;;
  Ok (indexOf same filteredContent (item page 0) + 1).

Definition showingTo {A} (same : A -> A -> bool) (rowsDisplayed : Z)
    (filteredContent : list A) (v : view A) : result Z :=
  page <- currentRows v ;;
  let last := indexOf same filteredContent (item page (rowsDisplayed - 1)) in
  Ok (if last =? -1 then Z.of_nat (List.length filteredContent)
      else last + 1).

(** ** Sort states that can arise *)

(** The sort state [defineCategories] sets for a list of columns. *)
Definition initialSorting (categories : list string) : sortingState :=
  fold_left (fun initSorting category => assign initSorting category SortNone)
            categories [].

(** The sort states the header buttons lead to: each button toggles one of
    the columns. *)
Inductive sortingReachable (categories : list string)
  : sortingState -> Prop :=
| reachInitialSorting :
    sortingReachable categories (initialSorting categories)
| reachToggle sorting category :
    sortingReachable categories sorting ->
    In category categories ->
    sortingReachable categories (toggleSortOrder sorting category).

(** ** Matching without exceptions *)

(** Whether some value of the row is a string that contains the query,
    case ignored. *)
Definition matchesQuery (query : string) (r : row) : bool :=
  existsb
    (fun v =>
       match v with
       | VStr s => includes (toLowerCase s) (toLowerCase query)
       | _ => false
       end)
    (values r).

(** The rows all of whose values are strings. *)
Definition allStrings (r : row) : bool := forallb isStringValue (values r).

(** ** The steps of the first loop of [defineCategories] *)

(** One property met: pushed unless it is there already. *)
Definition addKey (temp : list string) (property : string) : list string :=
  if existsb (String.eqb property) temp then temp else temp ++ [property].

(** One row met: its properties in turn. *)
Definition addRow (tempCategories : list string) (object : row)
  : list string :=
  fold_left addKey (keys object) tempCategories.

(** ** The step of the label loop *)

(** The body of the [for ... of] loop of [defineCategories] for the key
    [category]. *)
Definition labelStep (category formattedCategory letter : string) : string :=
  if String.eqb letter (toUpperCase letter)
  then replace category letter (" " ++ toLowerCase letter)
  else formattedCategory.

(** ** The normalised row, property by property *)



(** A value no property can be read of. *)
Definition isNullish (v : value) : bool :=
  match v with
  | VUndefined | VNull => true
  | _ => false
  end.

(** ** Hexadecimal colours *)

Definition isHexDigit (c : ascii) : bool :=
  match hexDigitValue c with
  | Some _ => true
  | None => false
  end.

(** The three channels [customColorTheme] parses. *)
Definition channels (hex : string) : number * number * number :=
  let newHex := expandShorthand hex in
  (parseInt16 (sliceString newHex 1 3),
   parseInt16 (sliceString newHex 3 5),
   parseInt16 (sliceString newHex 5 7)).

(** A channel that is a number from 0 to 255. *)
Definition isByte (n : number) : bool :=
  match n with
  | Some z => (0 <=? z) && (z <=? 255)
  | None => false
  end.

Definition allAscii : list ascii := map ascii_of_nat (seq 0 256).

(** ** The direction of a sort *)

(** The direction [sortContent] sorts in, read off the test at the head of
    its comparator. *)
Definition directionOf (sorting : sortingState) (category : string)
    (toggleOrder : bool) : sortOrder :=
  if comparesAscending sorting category toggleOrder
  then Ascending else Descending.

(** The sort state with every column at none, as [toggleSortOrder] first
    makes it. *)
Definition resetSorting (sorting : sortingState) : sortingState :=
  map (fun '(sortingCategory, _) => (sortingCategory, SortNone)) sorting.

(** ** Ordinary keys and ASCII strings *)

(** A key that an object enumerates in the order of its creation and that
    an assignment creates: not [__proto__], and not written with digits
    only (the array indices, which are enumerated first, are written with
    digits only). *)
Definition ordinaryKey (k : string) : bool :=
  negb (isDecimal k) && negb (String.eqb k "__proto__").

(** A string of ASCII code units. *)
Definition isAsciiString (s : string) : bool :=
  forallb (fun c => (nat_of_ascii c <? 128)%nat) (list_ascii_of_string s).


(** * Paginator *)

Lemma slice_rest_shorter {A} (a : list A) (rowsDisplayed : Z) :
  a <> [] ->
  (List.length (slice a (rowsDisplayed - 1) (-1)) < List.length a)%nat.
Proof.
  intros Hne. unfold slice, relativeIndex.
  rewrite length_firstn, length_skipn.
  destruct a as [|x a]; [congruence|]. cbn [List.length].
  destruct (rowsDisplayed - 1 <? 0) eqn:E; cbn [Z.ltb Z.compare]; lia.
Qed.

Lemma relativeIndex_nonneg (len i : Z) :
  0 <= i -> relativeIndex len i = Z.min i len.
Proof.
  intros Hi. unfold relativeIndex.
  destruct (i <? 0) eqn:E; [apply Z.ltb_lt in E; lia|reflexivity].
Qed.

Lemma relativeIndex_last (len : Z) :
  relativeIndex len (-1) = Z.max (len - 1) 0.
Proof. reflexivity. Qed.

Section Paginator.
Context {A : Type}.
Implicit Types (content : list A) (rowsDisplayed : Z).

Lemma separatePagesLoop_slices rowsDisplayed content (slices : list (list A)) :
  separatePagesLoop rowsDisplayed content slices
  = slices ++ separatePagesLoop rowsDisplayed content [].
Proof.
  remember (List.length content) as n eqn:Hn.
  revert content slices Hn.
  induction n as [n IH] using lt_wf_ind. intros content slices Hn.
  destruct content as [|x l]; simp separatePagesLoop.
  - now rewrite app_nil_r.
  - assert (Hlt : (List.length (slice (x :: l) (rowsDisplayed - 1) (-1))
                   < n)%nat).
    { subst n. apply slice_rest_shorter. discriminate. }
    rewrite (IH _ Hlt _ (slices ++ _) eq_refl).
    rewrite (IH _ Hlt _ ([] ++ _) eq_refl).
    now rewrite <- app_assoc.
Qed.

(** One turn of the loop: a page is cut from the front, and the loop goes
    on with the elements from index [rowsDisplayed - 1] to the one before
    the last. *)
Lemma separatePages_step rowsDisplayed content :
  content <> [] ->
  separatePages rowsDisplayed content
  = slice content 0 rowsDisplayed
      :: separatePages rowsDisplayed (slice content (rowsDisplayed - 1) (-1)).
Proof.
  intros Hne. unfold separatePages.
  destruct content as [|x l]; [congruence|].
  simp separatePagesLoop. now rewrite separatePagesLoop_slices.
Qed.

Lemma slice_front content rowsDisplayed :
  0 <= rowsDisplayed ->
  slice content 0 rowsDisplayed = firstn (Z.to_nat rowsDisplayed) content.
Proof.
  intros Hn. unfold slice.
  rewrite !relativeIndex_nonneg by lia.
  rewrite (Z.min_l 0) by lia. rewrite Z.sub_0_r. cbn [Z.to_nat skipn].
  destruct (Z.le_ge_cases rowsDisplayed (Z.of_nat (List.length content))).
  - now rewrite Z.min_l by lia.
  - rewrite Z.min_r by lia. rewrite Nat2Z.id.
    rewrite firstn_all. symmetry. apply firstn_all2. lia.
Qed.

Lemma slice_rest content rowsDisplayed :
  1 <= rowsDisplayed ->
  slice content (rowsDisplayed - 1) (-1)
  = firstn (List.length content - Z.to_nat rowsDisplayed)
           (skipn (Z.to_nat rowsDisplayed - 1) content).
Proof.
  intros Hn. unfold slice.
  rewrite (relativeIndex_nonneg _ (rowsDisplayed - 1)) by lia.
  rewrite relativeIndex_last.
  destruct (Z.le_ge_cases (rowsDisplayed - 1) (Z.of_nat (List.length content))).
  - rewrite Z.min_l by lia.
    replace (Z.to_nat (rowsDisplayed - 1))
      with (Z.to_nat rowsDisplayed - 1)%nat by lia.
    f_equal. lia.
  - rewrite Z.min_r by lia. rewrite Nat2Z.id.
    rewrite skipn_all. rewrite firstn_nil.
    rewrite (skipn_all2 content) by lia. now rewrite firstn_nil.
Qed.

Lemma skipn_cons_nth content (k : nat) (d : A) :
  (k < List.length content)%nat ->
  skipn k content = nth k content d :: skipn (S k) content.
Proof.
  revert content. induction k as [|k IH]; intros [|x l] Hk; cbn in *; try lia.
  - reflexivity.
  - apply IH. lia.
Qed.

(** A collection that fits on one page is that page. *)
Lemma separatePages_single rowsDisplayed content :
  content <> [] ->
  Z.of_nat (List.length content) <= rowsDisplayed ->
  separatePages rowsDisplayed content = [content].
Proof.
  intros Hne Hlen.
  assert (Hpos : (0 < List.length content)%nat)
    by (destruct content; cbn; [congruence|lia]).
  rewrite (separatePages_step _ _ Hne).
  rewrite slice_front by lia. rewrite slice_rest by lia.
  rewrite firstn_all2 by lia.
  replace (List.length content - Z.to_nat rowsDisplayed)%nat with 0%nat by lia.
  reflexivity.
Qed.

(** With more records than a page holds, the loop restarts one record
    too early: the record at index [rowsDisplayed - 1] closes the first
    page and opens the second. *)
Lemma separatePages_overlap rowsDisplayed content (d : A) :
  1 <= rowsDisplayed < Z.of_nat (List.length content) ->
  exists pages,
    List.concat (separatePages rowsDisplayed content)
    = firstn (Z.to_nat rowsDisplayed) content
        ++ nth (Z.to_nat rowsDisplayed - 1) content d :: pages.
Proof.
  intros [Hlo Hhi].
  assert (Hne : content <> [])
    by (destruct content; cbn in *; [lia|discriminate]).
  rewrite (separatePages_step _ _ Hne). cbn [List.concat].
  rewrite slice_front by lia. rewrite slice_rest by lia.
  rewrite (skipn_cons_nth _ _ d) by lia.
  remember (List.length content - Z.to_nat rowsDisplayed)%nat as n eqn:En.
  destruct n as [|n]; [lia|]. cbn [firstn].
  rewrite separatePages_step by discriminate. cbn [List.concat].
  rewrite slice_front by lia.
  remember (Z.to_nat rowsDisplayed) as m eqn:Em.
  destruct m as [|m]; [lia|]. cbn [firstn app].
  eexists. reflexivity.
Qed.

(** So the pages of distinct records never add up to the collection
    once it is longer than a page. *)
Lemma separatePages_not_partition rowsDisplayed content :
  NoDup content ->
  1 <= rowsDisplayed < Z.of_nat (List.length content) ->
  List.concat (separatePages rowsDisplayed content) <> content.
Proof.
  intros Hnd Hlen Heq.
  destruct content as [|d l] eqn:Ec; [cbn in Hlen; lia|]. rewrite <- Ec in *.
  destruct (separatePages_overlap rowsDisplayed content d Hlen) as [pages Hp].
  rewrite Heq in Hp.
  rewrite <- (firstn_skipn (Z.to_nat rowsDisplayed) content) in Hp at 1.
  apply app_inv_head in Hp.
  rewrite (skipn_cons_nth _ _ d) in Hp by lia.
  injection Hp as Hnth _.
  apply (proj1 (NoDup_nth content d) Hnd) in Hnth; lia.
Qed.
End Paginator.

(** C1 (code defect).  [separatePages] is meant to cut the records into
    consecutive pages whose concatenation is the input.  On 23 records and
    a page size of 10 it does return three pages of 10, 10 and 3 records,
    but not a partition: records 9 and 18 each stand on two pages and
    records 21 and 22 stand on none. *)
Theorem separatePages_23_records :
  separatePages 10 (records 23)
  = [[0; 1; 2; 3; 4; 5; 6; 7; 8; 9];
     [9; 10; 11; 12; 13; 14; 15; 16; 17; 18];
     [18; 19; 20]]
  /\ map (@List.length Z) (separatePages 10 (records 23)) = [10; 10; 3]%nat
  /\ List.concat (separatePages 10 (records 23)) <> records 23
  /\ ~ In 21 (List.concat (separatePages 10 (records 23)))
  /\ ~ In 22 (List.concat (separatePages 10 (records 23))).
Proof.
  assert (H : separatePages 10 (records 23)
              = [[0; 1; 2; 3; 4; 5; 6; 7; 8; 9];
                 [9; 10; 11; 12; 13; 14; 15; 16; 17; 18];
                 [18; 19; 20]]) by reflexivity.
  rewrite H. repeat split; try reflexivity.
  - discriminate.
  - cbn. intros Hin.
    repeat (destruct Hin as [Hin|Hin]; [discriminate|]). exact Hin.
  - cbn. intros Hin.
    repeat (destruct Hin as [Hin|Hin]; [discriminate|]). exact Hin.
Qed.

(** * Record normaliser *)

Lemma lookup_hasOwnProperty {V} (o : obj V) (k : string) :
  hasOwnProperty o k = match lookup o k with Some _ => true | None => false end.
Proof.
  induction o as [|[k' v] o IH]; cbn; [reflexivity|].
  destruct (String.eqb k' k); [reflexivity|exact IH].
Qed.

Lemma assign_fresh {V} (o : obj V) (k : string) (v : V) :
  hasOwnProperty o k = false -> assign o k v = o ++ [(k, v)].
Proof.
  induction o as [|[k' v'] o IH]; cbn; [reflexivity|].
  destruct (String.eqb k' k); [discriminate|].
  intros H. now rewrite IH.
Qed.

Lemma hasOwnProperty_In {V} (o : obj V) (k : string) :
  hasOwnProperty o k = true <-> In k (keys o).
Proof.
  induction o as [|[k' v] o IH]; cbn; [split; [discriminate|tauto]|].
  destruct (String.eqb_spec k' k) as [->|Hne].
  - split; auto.
  - rewrite IH. split; [auto|]. intros [H|H]; [congruence|exact H].
Qed.

Lemma lookup_assign_same {V} (o : obj V) (k : string) (v : V) :
  lookup (assign o k v) k = Some v.
Proof.
  induction o as [|[k' v'] o IH]; cbn.
  - now rewrite String.eqb_refl.
  - destruct (String.eqb k' k) eqn:E; cbn; rewrite E; [reflexivity|exact IH].
Qed.

Lemma lookup_assign_other {V} (o : obj V) (k k' : string) (v : V) :
  k' <> k -> lookup (assign o k v) k' = lookup o k'.
Proof.
  intros Hne. induction o as [|[k0 v0] o IH]; cbn.
  - destruct (String.eqb_spec k k'); [congruence|reflexivity].
  - destruct (String.eqb_spec k0 k) as [->|Hk]; cbn.
    + destruct (String.eqb_spec k k'); [congruence|reflexivity].
    + destruct (String.eqb k0 k'); [reflexivity|exact IH].
Qed.

Lemma fold_left_Throw {A B} (f : result A -> B -> result A) (l : list B) e :
  (forall b, f (Throw e) b = Throw e) ->
  fold_left f l (Throw e) = Throw e.
Proof.
  intros Hf. induction l as [|b l IH]; cbn; [reflexivity|].
  now rewrite Hf.
Qed.

Section Normaliser.
Variable key : obj string.

Lemma removeObjectsRow_prefix (done todo : row) :
  NoDup (keys (done ++ todo)) ->
  (forall property, In property (keys todo) ->
                    hasOwnProperty key property = false) ->
  fold_left
    (fun acc property =>
       newObject <- acc ;;
       if hasOwnProperty key property then
         let replacementProperty :=
           match lookup key property with
           | Some sub => sub
           | None => "undefined"
           end in
         v <- getProperty (get (done ++ todo) property) replacementProperty ;;
         Ok (assign newObject property v)
       else Ok (assign newObject property (get (done ++ todo) property)))
    (keys todo) (Ok done)
  = Ok (done ++ todo).
Proof.
  revert done. induction todo as [|[k v] todo IH]; intros done Hnd Hkey.
  - cbn. now rewrite app_nil_r.
  - cbn [keys map fst fold_left bind].
    rewrite (Hkey k) by (cbn; auto).
    assert (Hfresh : hasOwnProperty done k = false).
    { destruct (hasOwnProperty done k) eqn:E; [|reflexivity].
      apply hasOwnProperty_In in E. exfalso.
      unfold keys in Hnd. rewrite map_app in Hnd. cbn in Hnd.
      apply NoDup_remove_2 in Hnd. apply Hnd. apply in_or_app. now left. }
    assert (Hget : get (done ++ (k, v) :: todo) k = v).
    { unfold get. clear - Hfresh.
      induction done as [|[k' v'] done IHd]; cbn in *.
      - now rewrite String.eqb_refl.
      - destruct (String.eqb k' k); [discriminate|]. now apply IHd. }
    rewrite Hget, assign_fresh by exact Hfresh.
    replace (done ++ (k, v) :: todo) with ((done ++ [(k, v)]) ++ todo)
      by now rewrite <- app_assoc.
    apply IH.
    + now rewrite <- app_assoc.
    + intros p Hp. apply Hkey. cbn. now right.
Qed.

(** With a flatten map, a row none of whose properties is in the map
    comes out as it went in. *)
Lemma removeObjectsRow_untouched (object : row) :
  untouched key object -> removeObjectsRow (Some key) object = Ok object.
Proof.
  intros [Hnd Hkey]. unfold removeObjectsRow.
  exact (removeObjectsRow_prefix [] object Hnd Hkey).
Qed.

Lemma removeObjects_untouched (content : list row) :
  Forall (untouched key) content ->
  removeObjects (Some key) content = Ok content.
Proof.
  unfold removeObjects.
  induction 1 as [|object content Hrow _ IH]; cbn; [reflexivity|].
  rewrite removeObjectsRow_untouched by exact Hrow. cbn.
  now rewrite IH.
Qed.
End Normaliser.

Lemma existsb_keys {V} (o : obj V) (p : string) :
  existsb (String.eqb p) (keys o) = hasOwnProperty o p.
Proof.
  induction o as [|[k v] o IH]; [reflexivity|].
  cbn [keys map fst existsb hasOwnProperty]. fold (keys o).
  rewrite IH, (String.eqb_sym p k). now destruct (String.eqb k p).
Qed.

Section PassThrough.
Variable key : obj string.
Variable object : row.

Lemma lookup_get (p : string) :
  lookup object p = if hasOwnProperty object p then Some (get object p) else None.
Proof.
  unfold get. rewrite lookup_hasOwnProperty. now destruct (lookup object p).
Qed.

Lemma removeObjectsRow_fold (ks : list string) (acc out : row) (p : string) :
  fold_left
    (fun acc property =>
       newObject <- acc ;;
       if hasOwnProperty key property then
         let replacementProperty :=
           match lookup key property with
           | Some sub => sub
           | None => "undefined"
           end in
         v <- getProperty (get object property) replacementProperty ;;
         Ok (assign newObject property v)
       else Ok (assign newObject property (get object property)))
    ks (Ok acc) = Ok out ->
  hasOwnProperty key p = false ->
  lookup out p
  = if existsb (String.eqb p) ks then Some (get object p) else lookup acc p.
Proof.
  revert acc. induction ks as [|k ks IH]; intros acc Hfold Hp.
  - cbn in *. now injection Hfold as <-.
  - cbn [fold_left bind] in Hfold. cbn [existsb].
    destruct (hasOwnProperty key k) eqn:Ek.
    + destruct (getProperty (get object k) _) as [v|e]; cbn [bind] in Hfold.
      * rewrite (IH _ Hfold Hp).
        destruct (String.eqb_spec p k) as [->|Hne]; [congruence|].
        cbn [orb]. destruct (existsb _ ks); [reflexivity|].
        now apply lookup_assign_other.
      * rewrite fold_left_Throw in Hfold by reflexivity. discriminate.
    + rewrite (IH _ Hfold Hp).
      destruct (String.eqb_spec p k) as [->|Hne]; cbn [orb].
      * destruct (existsb _ ks); [reflexivity|]. apply lookup_assign_same.
      * destruct (existsb _ ks); [reflexivity|].
        now apply lookup_assign_other.
Qed.

(** With a flatten map, whatever the other properties of the row are, a
    property that is not in the map has in the normalised row the value it
    has in the row. *)
Lemma removeObjectsRow_passes (newObject : row) (p : string) :
  removeObjectsRow (Some key) object = Ok newObject ->
  hasOwnProperty key p = false ->
  lookup newObject p = lookup object p.
Proof.
  intros Hrow Hp. unfold removeObjectsRow in Hrow.
  rewrite (removeObjectsRow_fold _ _ _ p Hrow Hp), lookup_get.
  rewrite existsb_keys. now destruct (hasOwnProperty object p).
Qed.
End PassThrough.

Lemma mapM_length {A B} (f : A -> result B) (l : list A) (out : list B) :
  mapM f l = Ok out -> List.length out = List.length l.
Proof.
  revert out. induction l as [|a l IH]; cbn; intros out.
  - now intros [= <-].
  - destruct (f a) as [b|e]; cbn; [|discriminate].
    destruct (mapM f l) as [bs|e]; cbn; [|discriminate].
    intros [= <-]. cbn. f_equal. now apply IH.
Qed.

(** One normalised row for each row. *)
Lemma removeObjects_length (objectKey : option (obj string))
    (content out : list row) :
  removeObjects objectKey content = Ok out ->
  List.length out = List.length content.
Proof. apply mapM_length. Qed.

(** Without the prop [objectKey], a row with a property cannot be
    normalised. *)
Lemma removeObjectsRow_absent_key (object : row) :
  object <> [] -> removeObjectsRow None object = Throw TypeError.
Proof.
  destruct object as [|[k v] object]; [congruence|]. intros _.
  unfold removeObjectsRow. cbn [keys map fst fold_left bind].
  apply fold_left_Throw. reflexivity.
Qed.

Lemma removeObjects_absent_key (content : list row) :
  Exists (fun object => object <> []) content ->
  removeObjects None content = Throw TypeError.
Proof.
  unfold removeObjects.
  induction content as [|object content IH]; intros Hex.
  - inversion Hex.
  - cbn. destruct object as [|p object].
    + cbn. rewrite IH; [reflexivity|].
      inversion Hex; subst; [congruence|assumption].
    + now rewrite removeObjectsRow_absent_key by discriminate.
Qed.

(** C2 (code defect).  The table is documented to work with [content]
    alone, without [objectKey]; on the content of the documented usage
    [removeObjects] throws, where a pass-through of both rows was due.
    With an empty flatten map the same rows do pass through. *)
Theorem removeObjects_without_objectKey :
  let content := [ [("animal", VStr "manatee"); ("color", VStr "turquoise");
                    ("food", VStr "pizza")];
                   [("animal", VStr "deer"); ("color", VStr "lavender");
                    ("food", VStr "sushi")] ] in
  removeObjects None content = Throw TypeError
  /\ removeObjects (Some []) content = Ok content.
Proof. split; reflexivity. Qed.

(** * Schema deriver *)

(** The label is as specified on the key of the documented example. *)
Lemma formatCategory_pastFavorite :
  formatCategory "pastFavorite" = Ok "Past favorite"
  /\ specLabel "pastFavorite" = "Past favorite".
Proof. split; reflexivity. Qed.

(** A character that is its own uppercase is handled as an uppercase
    letter, so digits and punctuation are set apart as well. *)
Lemma formatCategory_digit :
  formatCategory "address2" = Ok "Address 2"
  /\ specLabel "address2" = "Address2".
Proof. split; reflexivity. Qed.

(** C3 (code defect).  The label is meant to have a space before every
    uppercase letter of the key.  The loop replaces in the key itself
    instead of in the label built so far, so only the replacement for the
    last uppercase letter survives: [pastFavoriteAnimal] is labelled
    [PastFavorite animal], not [Past favorite animal]. *)
Theorem formatCategory_two_uppercase :
  formatCategory "pastFavoriteAnimal" = Ok "PastFavorite animal"
  /\ specLabel "pastFavoriteAnimal" = "Past favorite animal"
  /\ formatCategory "pastFavoriteAnimal" <> Ok (specLabel "pastFavoriteAnimal").
Proof. repeat split; try reflexivity. discriminate. Qed.

(** * Sort state *)

Lemma lookup_reset (sorting : sortingState) (k : string) :
  lookup
    (map (fun '(sortingCategory, _) => (sortingCategory, SortNone)) sorting) k
  = option_map (fun _ => SortNone) (lookup sorting k).
Proof.
  induction sorting as [|[k' o] sorting IH]; cbn; [reflexivity|].
  destruct (String.eqb k' k); [reflexivity|exact IH].
Qed.

Lemma toggleSortOrder_other (sorting : sortingState) (category k : string) :
  k <> category ->
  lookup (toggleSortOrder sorting category) k
  = option_map (fun _ => SortNone) (lookup sorting k).
Proof.
  intros Hne. unfold toggleSortOrder.
  destruct (orderIs sorting category SortNone
            || orderIs sorting category Descending);
    rewrite lookup_assign_other by exact Hne; apply lookup_reset.
Qed.

Lemma toggleSortOrder_same (sorting : sortingState) (category : string)
    (order : sortOrder) :
  lookup sorting category = Some order ->
  lookup (toggleSortOrder sorting category) category
  = Some (nextOrder order).
Proof.
  intros Hl. unfold toggleSortOrder, orderIs. rewrite Hl.
  destruct order; cbn; apply lookup_assign_same.
Qed.

(** C5.  Toggling a column of the sort state moves it along the cycle
    none, ascending, descending, ascending, ...; every other column is
    reset to none, so after a toggle at most one column, the toggled one,
    is not none. *)
Theorem toggleSortOrder_cycle_exclusive (sorting : sortingState)
    (category : string) :
  (forall order, lookup sorting category = Some order ->
     lookup (toggleSortOrder sorting category) category
     = Some (nextOrder order))
  /\ (forall k, k <> category ->
        lookup (toggleSortOrder sorting category) k
        = option_map (fun _ => SortNone) (lookup sorting k))
  /\ (forall k order,
        lookup (toggleSortOrder sorting category) k = Some order ->
        order <> SortNone -> k = category).
Proof.
  split; [|split].
  - intros order. apply toggleSortOrder_same.
  - intros k Hne. now apply toggleSortOrder_other.
  - intros k order Hl Hactive.
    destruct (String.eqb_spec k category) as [Heq|Hne]; [exact Heq|].
    rewrite toggleSortOrder_other in Hl by exact Hne.
    destruct (lookup sorting k); cbn in Hl; congruence.
Qed.

Lemma toggleSortOrder_cycle_exclusive_witness :
  lookup (nameSorting SortNone) "name" = Some SortNone
  /\ lookup (toggleSortOrder (nameSorting SortNone) "name") "name" = Some Ascending
  /\ lookup (toggleSortOrder (toggleSortOrder (nameSorting SortNone) "name") "name")
            "name" = Some Descending
  /\ lookup (toggleSortOrder
               (toggleSortOrder (toggleSortOrder (nameSorting SortNone) "name") "name")
               "name") "name" = Some Ascending.
Proof.
  split; [reflexivity|]. split; [|split].
  - apply (proj1 (toggleSortOrder_cycle_exclusive (nameSorting SortNone) "name")
                 SortNone).
    reflexivity.
  - apply (proj1 (toggleSortOrder_cycle_exclusive
                    (toggleSortOrder (nameSorting SortNone) "name") "name")
                 Ascending).
    reflexivity.
  - apply (proj1 (toggleSortOrder_cycle_exclusive
                    (toggleSortOrder (toggleSortOrder (nameSorting SortNone) "name") "name")
                    "name")
                 Descending).
    reflexivity.
Defined.

(** * Colour theme deriver *)

(** A colour the pattern rejects, or no colour, leaves the theme as it
    is. *)
Lemma colorEffect_rejected (theme : colorTheme) (color : string) :
  hexRegexTest color = false -> colorEffect theme (Some color) = theme.
Proof. intros H. unfold colorEffect. now rewrite H. Qed.

Lemma colorEffect_absent (theme : colorTheme) : colorEffect theme None = theme.
Proof. reflexivity. Qed.

Lemma colorEffect_notacolor :
  colorEffect defaultColorTheme (Some "notacolor") = defaultColorTheme.
Proof. reflexivity. Qed.

(** The colour of the documented usage: white text. *)
Lemma colorEffect_577399 :
  colorEffect defaultColorTheme (Some "#577399")
  = {| bright := "rgba(87, 115, 153, 1)";
       light := "rgba(87, 115, 153, 0.2)";
       text := "white" |}.
Proof. vm_compute. reflexivity. Qed.

(** A full colour is not expanded. *)
Lemma expandShorthand_full (hex : string) :
  String.length hex <> 4%nat -> expandShorthand hex = hex.
Proof.
  intros H. unfold expandShorthand.
  destruct (Nat.eqb_spec (String.length hex) 4); [congruence|reflexivity].
Qed.

Lemma isAlnum_alnumChars (c : ascii) : isAlnum c = true -> In c alnumChars.
Proof.
  intros H. apply filter_In. split; [|exact H].
  rewrite <- (ascii_nat_embedding c). apply in_map. apply in_seq.
  pose proof (nat_ascii_bounded c). lia.
Qed.

(** The shorthand loop against the doubling of each digit, on every
    shorthand the pattern admits: they agree unless the first and the
    third digit are the same and the second is another, where [replace]
    finds the first digit again instead of the third. *)
Lemma expandShorthand_agrees_iff (x y z : ascii) :
  isAlnum x = true -> isAlnum y = true -> isAlnum z = true ->
  (expandShorthand (shorthand x y z) = specExpand (shorthand x y z)
   <-> ~ (x = z /\ x <> y)).
Proof.
  intros Hx Hy Hz.
  assert (Hall :
    forallb (fun a => forallb (fun b => forallb (fun c =>
      Bool.eqb (String.eqb (expandShorthand (shorthand a b c))
                           (specExpand (shorthand a b c)))
               (negb (Ascii.eqb a c && negb (Ascii.eqb a b))))
      alnumChars) alnumChars) alnumChars = true) by (vm_compute; reflexivity).
  rewrite forallb_forall in Hall.
  specialize (Hall x (isAlnum_alnumChars x Hx)). rewrite forallb_forall in Hall.
  specialize (Hall y (isAlnum_alnumChars y Hy)). rewrite forallb_forall in Hall.
  specialize (Hall z (isAlnum_alnumChars z Hz)).
  apply Bool.eqb_prop in Hall.
  destruct (String.eqb_spec (expandShorthand (shorthand x y z))
                            (specExpand (shorthand x y z))) as [He|He];
    destruct (Ascii.eqb_spec x z) as [Hxz|Hxz];
    destruct (Ascii.eqb_spec x y) as [Hxy|Hxy];
    cbn in Hall; try discriminate; split; intros; tauto.
Qed.

(** C8 (code defect).  A shorthand colour is meant to be expanded by
    doubling each digit.  [#aba] passes the pattern and should give the
    channels of [#aabbaa], 170, 187 and 170; the loop builds [#aaabba]
    and the theme gets 170, 171 and 186. *)
Theorem customColorTheme_shorthand_aba :
  hexRegexTest "#aba" = true
  /\ expandShorthand "#aba" = "#aaabba"
  /\ specExpand "#aba" = "#aabbaa"
  /\ colorEffect defaultColorTheme (Some "#aba")
     = {| bright := "rgba(170, 171, 186, 1)";
          light := "rgba(170, 171, 186, 0.2)";
          text := "black" |}
  /\ colorEffect defaultColorTheme (Some "#aabbaa")
     = {| bright := "rgba(170, 187, 170, 1)";
          light := "rgba(170, 187, 170, 0.2)";
          text := "black" |}.
Proof. repeat split; vm_compute; reflexivity. Qed.

(** A letter that is no hexadecimal digit, in the first place of a
    channel, makes the channel [NaN]. *)
Lemma parseInt16_not_hex (c d : ascii) :
  hexDigitValue c = None -> isAlnum c = true ->
  parseInt16 (String c (String d EmptyString)) = None.
Proof.
  intros Hhex Halnum.
  assert (Hall :
    forallb (fun a => forallb (fun b =>
      match hexDigitValue a with
      | None => match parseInt16 (String a (String b EmptyString)) with
                | None => true
                | Some _ => false
                end
      | Some _ => true
      end) (map ascii_of_nat (seq 0 256))) alnumChars = true)
    by (vm_compute; reflexivity).
  rewrite forallb_forall in Hall.
  specialize (Hall c (isAlnum_alnumChars c Halnum)).
  rewrite forallb_forall in Hall.
  assert (Hd : In d (map ascii_of_nat (seq 0 256))).
  { rewrite <- (ascii_nat_embedding d). apply in_map. apply in_seq.
    pose proof (nat_ascii_bounded d). lia. }
  specialize (Hall d Hd). rewrite Hhex in Hall.
  destruct (parseInt16 (String c (String d EmptyString)));
    [discriminate|reflexivity].
Qed.

(** C10.  The pattern admits every letter, not only the hexadecimal
    digits: [#zzz] passes it, its channels parse to [NaN], and the theme
    then holds [rgba(NaN, NaN, NaN, 1)] and [rgba(NaN, NaN, NaN, 0.2)],
    which are no colours. *)
Theorem hexRegex_admits_malformed_theme :
  exists color,
    color = "#zzz"
    /\ hexRegexTest color = true
    /\ parseInt16 (sliceString (expandShorthand color) 1 3) = None
    /\ parseInt16 (sliceString (expandShorthand color) 3 5) = None
    /\ parseInt16 (sliceString (expandShorthand color) 5 7) = None
    /\ bright (colorEffect defaultColorTheme (Some color))
       = "rgba(NaN, NaN, NaN, 1)"
    /\ light (colorEffect defaultColorTheme (Some color))
       = "rgba(NaN, NaN, NaN, 0.2)"
    /\ wellFormedColor (bright (colorEffect defaultColorTheme (Some color)))
       = false
    /\ wellFormedColor (light (colorEffect defaultColorTheme (Some color)))
       = false
    /\ wellFormedColor (bright defaultColorTheme) = true
    /\ wellFormedColor (light defaultColorTheme) = true.
Proof. exists "#zzz". repeat split; vm_compute; reflexivity. Qed.

(** * Sort engine *)

#[export] Instance codeUnitCollatorLaws : CollatorLaws.
Proof.
  split; cbn.
  - induction a as [|x a IH]; cbn; [reflexivity|].
    now rewrite Nat.compare_refl.
  - induction a as [|x a IH]; intros [|y b]; cbn; try lia.
    rewrite (Nat.compare_antisym (nat_of_ascii x) (nat_of_ascii y)).
    destruct (nat_of_ascii x ?= nat_of_ascii y)%nat; cbn; try lia. apply IH.
  - induction a as [|x a IH]; intros [|y b] [|z c]; cbn; try lia.
    destruct (Nat.compare_spec (nat_of_ascii x) (nat_of_ascii y)) as [Exy|Lxy|Gxy];
      destruct (Nat.compare_spec (nat_of_ascii y) (nat_of_ascii z)) as [Eyz|Lyz|Gyz];
      destruct (Nat.compare_spec (nat_of_ascii x) (nat_of_ascii z)) as [Exz|Lxz|Gxz];
      try lia.
    apply IH.
Qed.

Section SortM.
Context {A : Type} (cmp : A -> A -> result Z).

Lemma insertM_nonempty x l s : insertM cmp x l = Ok s -> s <> [].
Proof.
  destruct l as [|y l]; cbn.
  - intros [= <-]. discriminate.
  - destruct (cmp x y) as [c|e]; cbn; [|discriminate].
    destruct (c <=? 0); [intros [= <-]; discriminate|].
    destruct (insertM cmp x l); cbn; [intros [= <-]; discriminate|discriminate].
Qed.

Lemma sortM_nonempty l s : sortM cmp l = Ok s -> l <> [] -> s <> [].
Proof.
  destruct l as [|x l]; [congruence|]. cbn. intros Hs _.
  destruct (sortM cmp l) as [s'|e]; cbn in Hs; [|discriminate].
  now apply insertM_nonempty in Hs.
Qed.

Lemma insertM_perm x l s : insertM cmp x l = Ok s -> Permutation (x :: l) s.
Proof.
  revert s. induction l as [|y l IH]; cbn; intros s.
  - intros [= <-]. reflexivity.
  - destruct (cmp x y) as [c|e]; cbn; [|discriminate].
    destruct (c <=? 0); [intros [= <-]; reflexivity|].
    destruct (insertM cmp x l) as [r|e]; cbn; [|discriminate].
    intros [= <-]. rewrite perm_swap. apply perm_skip. now apply IH.
Qed.

Lemma sortM_perm l s : sortM cmp l = Ok s -> Permutation l s.
Proof.
  revert s. induction l as [|x l IH]; cbn; intros s.
  - intros [= <-]. reflexivity.
  - destruct (sortM cmp l) as [s'|e]; cbn; [|discriminate].
    intros Hi. apply insertM_perm in Hi.
    rewrite <- Hi. apply perm_skip. now apply IH.
Qed.

Hypothesis flip : forall a b c,
  cmp a b = Ok c -> 0 < c -> comesBefore cmp b a.
Hypothesis trans : forall a b c,
  comesBefore cmp a b -> comesBefore cmp b c -> comesBefore cmp a c.

Lemma insertM_sorted x l s :
  StronglySorted (comesBefore cmp) l -> insertM cmp x l = Ok s ->
  StronglySorted (comesBefore cmp) s.
Proof.
  revert s. induction l as [|y l IH]; cbn; intros s Hl.
  - intros [= <-]. repeat constructor.
  - destruct (cmp x y) as [c|e] eqn:Ec; cbn; [|discriminate].
    apply StronglySorted_inv in Hl. destruct Hl as [Hl Hy].
    destruct (Z.leb_spec c 0) as [Hle|Hgt].
    + intros [= <-]. constructor; [now constructor|].
      assert (Hxy : comesBefore cmp x y) by (exists c; auto).
      constructor; [exact Hxy|].
      eapply Forall_impl; [|exact Hy]. intros z Hz. now apply (trans x y z).
    + destruct (insertM cmp x l) as [r|e] eqn:Er; cbn; [|discriminate].
      intros [= <-]. constructor; [now apply IH|].
      apply insertM_perm in Er.
      eapply Permutation_Forall; [exact Er|].
      constructor; [now apply (flip x y c)|exact Hy].
Qed.

Lemma sortM_sorted l s :
  sortM cmp l = Ok s -> StronglySorted (comesBefore cmp) s.
Proof.
  revert s. induction l as [|x l IH]; cbn; intros s.
  - intros [= <-]. constructor.
  - destruct (sortM cmp l) as [s'|e]; cbn; [|discriminate].
    apply insertM_sorted. now apply IH.
Qed.
End SortM.

Lemma sortM_ext {A} (cmp cmp' : A -> A -> result Z) (l : list A) :
  (forall a b, cmp a b = cmp' a b) -> sortM cmp l = sortM cmp' l.
Proof.
  intros Hext.
  assert (Hins : forall x s, insertM cmp x s = insertM cmp' x s).
  { intros x s. induction s as [|y s IH]; cbn; [reflexivity|].
    rewrite Hext. destruct (cmp' x y) as [c|e]; cbn; [|reflexivity].
    now rewrite IH. }
  induction l as [|x l IH]; cbn; [reflexivity|].
  rewrite IH. destruct (sortM cmp' l); cbn; [apply Hins|reflexivity].
Qed.

Section Comparator.
Context `{Collator}.
Implicit Types (sorting : sortingState) (category : string) (a b : row).

Lemma compareRows_strings sorting category toggleOrder a b x y :
  get a category = VStr x -> get b category = VStr y ->
  compareRows sorting category toggleOrder a b
  = Ok (if comparesAscending sorting category toggleOrder
        then localeCompare (toLowerCase x) (toLowerCase y)
        else localeCompare (toLowerCase y) (toLowerCase x)).
Proof.
  intros Ha Hb. unfold compareRows, comparesAscending. rewrite Ha, Hb.
  now destruct (_ || _).
Qed.

Lemma compareRows_not_string sorting category toggleOrder a b :
  isStringValue (get a category) && isStringValue (get b category) = false ->
  compareRows sorting category toggleOrder a b = Throw TypeError.
Proof.
  intros Hbad. unfold compareRows.
  destruct (_ || _);
    destruct (get a category); destruct (get b category);
    cbn in *; congruence.
Qed.

(** Two or more rows, one of them without a string in the column, cannot
    be sorted. *)
Lemma sortContent_not_string sorting category toggleOrder (content : list row) :
  (2 <= List.length content)%nat ->
  Exists (fun r => isStringValue (get r category) = false) content ->
  sortContent sorting content category toggleOrder = Throw TypeError.
Proof.
  unfold sortContent.
  induction content as [|x l IH]; intros Hlen Hex; [cbn in Hlen; lia|].
  cbn [sortM].
  destruct (sortM (compareRows sorting category toggleOrder) l) as [s|[]] eqn:Es;
    [|reflexivity].
  cbn [bind].
  destruct l as [|y l']; [cbn in Hlen; lia|].
  assert (Hs : s <> []) by (eapply sortM_nonempty; [exact Es|discriminate]).
  destruct l' as [|z l''].
  - (* two rows: they are compared with each other *)
    cbn in Es. injection Es as <-. cbn [insertM].
    rewrite compareRows_not_string; [reflexivity|].
    inversion Hex as [? ? Hx|? ? Hy]; subst.
    + now rewrite Hx.
    + inversion Hy as [? ? Hy'|? ? Hn]; subst; [|inversion Hn].
      rewrite Hy'. apply andb_false_r.
  - (* more rows: the rest sorts only if all its values are strings *)
    inversion Hex as [? ? Hx|? ? Hrest]; subst.
    + destruct s as [|w s']; [congruence|]. cbn [insertM].
      rewrite compareRows_not_string; [reflexivity|]. now rewrite Hx.
    + assert (Ht := IH ltac:(cbn; lia) Hrest).
      rewrite Ht in Es. discriminate.
Qed.

Lemma compareRows_active sorting category order a b :
  lookup sorting category = Some order -> order <> SortNone ->
  compareRows sorting category false a b = compareIn order category a b.
Proof.
  intros Hl Hactive. unfold compareRows, compareIn, orderIs. rewrite Hl.
  destruct order; cbn; congruence.
Qed.

(** The comparator of a click: none and descending sort ascending,
    ascending sorts descending, as [toggleSortOrder] then records. *)
Lemma compareRows_click sorting category order a b :
  lookup sorting category = Some order ->
  compareRows sorting category true a b
  = compareIn (nextOrder order) category a b.
Proof.
  intros Hl. unfold compareRows, compareIn, orderIs. rewrite Hl.
  destruct order; reflexivity.
Qed.
End Comparator.

(** C4, as amended.  The comparator of [sortContent] lowercases the two
    values of the sort column without coercing them.  When both are
    strings they are compared without regard to case, in the direction
    the sort state asks for; when one of them is not a string (a number,
    [undefined], ...) the comparison throws a [TypeError], and so does
    sorting two or more rows one of which has such a value. *)
Theorem compareRows_no_coercion `{Collator} (sorting : sortingState)
    (category : string) (toggleOrder : bool) (a b : row) :
  (forall x y, get a category = VStr x -> get b category = VStr y ->
     compareRows sorting category toggleOrder a b
     = Ok (if comparesAscending sorting category toggleOrder
           then localeCompare (toLowerCase x) (toLowerCase y)
           else localeCompare (toLowerCase y) (toLowerCase x)))
  /\ (isStringValue (get a category) && isStringValue (get b category)
      = false ->
      compareRows sorting category toggleOrder a b = Throw TypeError)
  /\ (forall content : list row,
        (2 <= List.length content)%nat ->
        Exists (fun r => isStringValue (get r category) = false) content ->
        sortContent sorting content category toggleOrder = Throw TypeError).
Proof.
  split; [|split].
  - intros x y. apply compareRows_strings.
  - apply compareRows_not_string.
  - intros content. apply sortContent_not_string.
Qed.

Lemma compareRows_no_coercion_witness :
  compareRows (nameSorting SortNone) "name" true
              (person "Bob" "paris") (person "alice" "Oslo")
  = Ok (codeUnitCompare "bob" "alice")
  /\ compareRows (nameSorting SortNone) "name" true
                 (person "Bob" "paris") [("name", VNum 7)]
     = Throw TypeError
  /\ sortContent (nameSorting SortNone)
                 [person "Bob" "paris"; [("city", VStr "Oslo")]] "name" true
     = Throw TypeError.
Proof.
  split; [|split].
  - exact (proj1 (compareRows_no_coercion (nameSorting SortNone) "name" true
                    (person "Bob" "paris") (person "alice" "Oslo"))
                 "Bob" "alice" eq_refl eq_refl).
  - exact (proj1 (proj2 (compareRows_no_coercion (nameSorting SortNone) "name" true
                    (person "Bob" "paris") [("name", VNum 7)])) eq_refl).
  - apply (proj2 (proj2 (compareRows_no_coercion (nameSorting SortNone) "name" true
                    [] []))).
    + cbn. lia.
    + apply Exists_cons_tl. apply Exists_cons_hd. reflexivity.
Defined.

(** The claim as first stated fails: two rows with numbers in the sort
    column are not sorted, the comparison throws. *)
Lemma sortContent_numbers_throw :
  sortContent (nameSorting SortNone)
              [ [("name", VStr "Bob"); ("age", VNum 41)];
                [("name", VStr "alice"); ("age", VNum 7)] ] "age" true
  = Throw TypeError.
Proof. reflexivity. Qed.

(** * Filter engine *)

Lemma activeCategory_order (sorting : sortingState) (category : string) :
  activeCategory sorting = Some category ->
  orderIs sorting category SortNone = false.
Proof.
  unfold activeCategory.
  destruct (find _ sorting) as [[k o]|] eqn:Ef; [|discriminate].
  intros [= <-]. apply find_some in Ef. destruct Ef as [_ Hk].
  now apply negb_true_iff in Hk.
Qed.

Lemma lookup_In {V} (o : obj V) (k : string) (v : V) :
  lookup o k = Some v -> In (k, v) o.
Proof.
  induction o as [|[k' v'] o IH]; cbn; [discriminate|].
  destruct (String.eqb_spec k' k) as [->|Hne].
  - intros [= ->]. now left.
  - intros Hl. right. now apply IH.
Qed.

Lemma lookup_In_key {V} (o : obj V) (k : string) (v : V) :
  In (k, v) o -> lookup o k <> None.
Proof.
  induction o as [|[k' v'] o IH]; cbn; [tauto|].
  destruct (String.eqb_spec k' k) as [->|Hne]; [discriminate|].
  intros [[= -> _]|Hin]; [congruence|now apply IH].
Qed.

(** Under the invariant of the sort state the active column is the one
    column that is not none. *)
Lemma activeCategory_unique (sorting : sortingState) (category : string)
    (order : sortOrder) :
  lookup sorting category = Some order -> order <> SortNone ->
  (forall k o, lookup sorting k = Some o -> o <> SortNone -> k = category) ->
  activeCategory sorting = Some category.
Proof.
  intros Hl Hactive Hinv. unfold activeCategory.
  destruct (find _ sorting) as [[k o]|] eqn:Ef.
  - apply find_some in Ef. destruct Ef as [Ef Hk].
    apply negb_true_iff in Hk. unfold orderIs in Hk.
    destruct (lookup sorting k) as [o'|] eqn:El.
    + f_equal. apply (Hinv k o' El). destruct o'; congruence.
    + apply lookup_In_key in Ef. congruence.
  - pose proof (lookup_In _ _ _ Hl) as Hin.
    apply (find_none _ _ Ef) in Hin. apply negb_false_iff in Hin.
    unfold orderIs in Hin. rewrite Hl in Hin. destruct order; congruence.
Qed.

Section Filter.
Context `{Collator}.

Lemma rowMatches_empty_query (r : row) :
  stringRow r = true -> rowMatches "" r = Ok true.
Proof.
  unfold stringRow, rowMatches, values. intros Hr.
  apply andb_true_iff in Hr. destruct Hr as [Hne Hall].
  destruct r as [|[k v] r]; [discriminate|]. clear Hne.
  cbn [map snd forallb] in *. apply andb_true_iff in Hall.
  destruct Hall as [Hv Hall]. destruct v; try discriminate.
  cbn [mapM toLowerCaseOf bind].
  assert (Hrest : exists bs, mapM (fun v =>
            lowered <- toLowerCaseOf v ;; Ok (includes lowered (toLowerCase "")))
            (map snd r) = Ok bs).
  { clear - Hall. induction r as [|[k v] r IH]; cbn in *.
    - eexists; reflexivity.
    - apply andb_true_iff in Hall. destruct Hall as [Hv Hall].
      destruct v; try discriminate. cbn.
      destruct (IH Hall) as [bs ->]. cbn. eexists; reflexivity. }
  destruct Hrest as [bs ->]. cbn [bind existsb].
  replace (includes (toLowerCase s) (toLowerCase "")) with true
    by (destruct (toLowerCase s); reflexivity).
  reflexivity.
Qed.

Lemma filterM_all {A} (p : A -> result bool) (l : list A) :
  Forall (fun a => p a = Ok true) l -> filterM p l = Ok l.
Proof.
  induction 1 as [|a l Ha _ IH]; cbn; [reflexivity|].
  now rewrite Ha, IH.
Qed.
End Filter.

Section ActiveSort.
Context `{Collator}.
Implicit Types (sorting : sortingState) (category : string) (a b : row).

Lemma comesBefore_inOrder order category a b :
  comesBefore (compareIn order category) a b <-> inOrder order category a b.
Proof.
  unfold comesBefore, compareIn, inOrder. split.
  - intros [c [Hc Hle]].
    destruct order;
      destruct (get a category) as [| | | |x|]; cbn in Hc; try discriminate;
      destruct (get b category) as [| | | |y|]; cbn in Hc; try discriminate;
      injection Hc as <-; exists x, y; auto.
  - intros [x [y [-> [-> Hle]]]].
    destruct order; cbn; eexists; split; try reflexivity; exact Hle.
Qed.

Context `{!CollatorLaws}.

Lemma compareIn_flip order category a b c :
  compareIn order category a b = Ok c -> 0 < c ->
  comesBefore (compareIn order category) b a.
Proof.
  intros Hc Hpos. apply comesBefore_inOrder. unfold compareIn, inOrder in *.
  destruct order;
    destruct (get a category) as [| | | |x|]; cbn in Hc; try discriminate;
    destruct (get b category) as [| | | |y|]; cbn in Hc; try discriminate;
    injection Hc as <-; exists y, x; repeat split;
    match goal with
    | |- localeCompare ?u ?v <= 0 =>
        destruct (localeCompare_flip u v); [assumption|lia]
    end.
Qed.

Lemma compareIn_trans order category a b c :
  comesBefore (compareIn order category) a b ->
  comesBefore (compareIn order category) b c ->
  comesBefore (compareIn order category) a c.
Proof.
  rewrite !comesBefore_inOrder. unfold inOrder.
  intros [x [y [Ha [Hb Hxy]]]] [y' [z [Hb' [Hc Hyz]]]].
  rewrite Hb in Hb'. injection Hb' as <-.
  exists x, z. repeat split; try assumption.
  destruct order; eauto using localeCompare_trans.
Qed.

(** What a successful sort in a direction returns: the same rows, each
    before the ones it may stand before. *)
Lemma sortM_compareIn order category (l s : list row) :
  sortM (compareIn order category) l = Ok s ->
  Permutation l s /\ StronglySorted (inOrder order category) s.
Proof.
  intros Hs. split; [now apply sortM_perm in Hs|].
  apply sortM_sorted in Hs.
  - clear - Hs. induction Hs as [|a s Hs IH Ha]; constructor; [exact IH|].
    eapply Forall_impl; [|exact Ha]. intros b. apply comesBefore_inOrder.
  - apply compareIn_flip.
  - apply compareIn_trans.
Qed.
End ActiveSort.

(** When a column has an active sort direction, [filterContent] sorts the
    rows that pass the query by that column in the direction it already
    has, ascending or descending; what it returns, when neither the filter
    nor the sort throws, is those rows, permuted so that each row stands
    before the ones that follow it in that direction. *)
Lemma filterContent_active_sort `{Collator} `{!CollatorLaws}
    (sorting : sortingState) (query : string) (content : list row)
    (category : string) (order : sortOrder) :
  activeCategory sorting = Some category ->
  lookup sorting category = Some order ->
  (order = Ascending \/ order = Descending)
  /\ filterContent sorting query content
     = (newContent <- filterM (rowMatches query) content ;;
        sortM (compareIn order category) newContent)
  /\ (forall sorted, filterContent sorting query content = Ok sorted ->
        exists newContent,
          filterM (rowMatches query) content = Ok newContent
          /\ Permutation newContent sorted
          /\ StronglySorted (inOrder order category) sorted).
Proof.
  intros Hactive Hl.
  assert (Hne : order <> SortNone).
  { apply activeCategory_order in Hactive. unfold orderIs in Hactive.
    rewrite Hl in Hactive. destruct order; congruence. }
  assert (Heq : filterContent sorting query content
                = (newContent <- filterM (rowMatches query) content ;;
                   sortM (compareIn order category) newContent)).
  { unfold filterContent. rewrite Hactive.
    destruct (filterM (rowMatches query) content) as [newContent|e];
      [|reflexivity].
    cbn [bind]. unfold sortContent. apply sortM_ext.
    intros a b. now apply compareRows_active. }
  split; [destruct order; [congruence|now left|now right]|].
  split; [exact Heq|].
  intros sorted Hs. rewrite Heq in Hs.
  destruct (filterM (rowMatches query) content) as [newContent|e];
    [|discriminate].
  cbn [bind] in Hs. exists newContent. split; [reflexivity|].
  now apply sortM_compareIn.
Qed.

(** The direction [filterContent] keeps is the one the click that
    activated the column sorted in. *)
Lemma filterContent_after_click `{Collator} (sorting : sortingState)
    (category : string) (order : sortOrder) (a b : row) :
  lookup sorting category = Some order ->
  compareRows (toggleSortOrder sorting category) category false a b
  = compareRows sorting category true a b.
Proof.
  intros Hl. rewrite (compareRows_click _ _ _ _ _ Hl).
  apply compareRows_active.
  - now apply toggleSortOrder_same.
  - destruct order; discriminate.
Qed.

(** On rows that each have at least one property and hold strings only,
    the empty query lets every row pass: with no active sort the
    collection is returned unchanged and in order, and with an active sort
    it is handed to [sortContent] as it is. *)
Lemma filterContent_empty_query_passes `{Collator} (sorting : sortingState)
    (content : list row) :
  forallb stringRow content = true ->
  filterContent sorting "" content
  = match activeCategory sorting with
    | Some category => sortContent sorting content category false
    | None => Ok content
    end.
Proof.
  intros Hrows. unfold filterContent.
  rewrite filterM_all; [reflexivity|].
  apply Forall_forall. intros r Hr. apply rowMatches_empty_query.
  rewrite forallb_forall in Hrows. now apply Hrows.
Qed.

(** The claim as first stated fails three ways: a number among the values
    makes the filter throw, a row without properties is dropped, and an
    active sort reorders the rows. *)
Lemma filterContent_empty_query_not_identity :
  filterContent (nameSorting SortNone) ""
    [ [("name", VStr "Bob"); ("age", VNum 41)] ]
  = Throw TypeError
  /\ filterContent (nameSorting SortNone) "" [ []; person "Bob" "paris" ]
     = Ok [person "Bob" "paris"]
  /\ filterContent (nameSorting Ascending) ""
       [person "Bob" "paris"; person "alice" "Oslo"]
     = Ok [person "alice" "Oslo"; person "Bob" "paris"].
Proof. repeat split. Qed.

(** * Value renderer *)

Section Renderer.
Context `{Dayjs}.

Lemma renderProperty_cases (dateFormat : option string) (r : row) (c : column) :
  renderProperty dateFormat r c
  = if hasOwnProperty r (category c) then
      if isValid (get r (category c))
         && strictEqualsString (get r (category c))
                               (toISOString (get r (category c)))
      then VStr (format (get r (category c)) (effectiveFormat dateFormat))
      else get r (category c)
    else VUndefined.
Proof.
  unfold renderProperty, effectiveFormat.
  destruct (hasOwnProperty r (category c)); [|reflexivity].
  destruct (isValid _ && _); [|reflexivity].
  destruct dateFormat as [pattern|]; [|reflexivity].
  now destruct (String.eqb pattern "").
Qed.

(** A value that is not a string is never formatted as a date. *)
Lemma renderProperty_not_string (dateFormat : option string) (r : row)
    (c : column) :
  hasOwnProperty r (category c) = true ->
  isStringValue (get r (category c)) = false ->
  renderProperty dateFormat r c = get r (category c).
Proof.
  intros Hown Hv. rewrite renderProperty_cases, Hown.
  destruct (get r (category c)); try discriminate; cbn;
    now rewrite andb_false_r.
Qed.
End Renderer.


(** A host at UTC or ahead of it by less than a day reads the instant
    [2023-05-01T00:00:00.000Z] as a time of the first of May. *)
Lemma fieldsAt_first_of_may (utcOffset : Z) :
  0 <= utcOffset < 1440 ->
  fYear (fieldsAt utcOffset 1682899200000) = 2023
  /\ fMonth (fieldsAt utcOffset 1682899200000) = 5
  /\ fDay (fieldsAt utcOffset 1682899200000) = 1.
Proof.
  intros Hoff. unfold fieldsAt.
  assert (Hdays : (1682899200000 + utcOffset * 60000) / msPerDay = 19478).
  { unfold msPerDay. symmetry.
    apply (Z.div_unique _ _ _ (utcOffset * 60000)); lia. }
  rewrite Hdays.
  change (civilFromDays 19478) with (2023, 5, 1).
  cbn [fYear fMonth fDay]. auto.
Qed.

Lemma formatLoop_first_of_may (f : dateFields) (utcOffset : Z) :
  fYear f = 2023 -> fMonth f = 5 -> fDay f = 1 ->
  formatLoop 10 f utcOffset "DD/MM/YYYY" = "01/05/2023"
  /\ formatLoop 8 f utcOffset "MM/DD/YY" = "05/01/23".
Proof.
  destruct f as [y m d w h mi s ms]. cbn [fYear fMonth fDay].
  intros -> -> ->. split; vm_compute; reflexivity.
Qed.

Lemma formatTime_first_of_may (utcOffset : Z) :
  0 <= utcOffset < 1440 ->
  formatTime utcOffset 1682899200000 "DD/MM/YYYY" = "01/05/2023"
  /\ formatTime utcOffset 1682899200000 "MM/DD/YY" = "05/01/23".
Proof.
  intros Hoff.
  destruct (fieldsAt_first_of_may utcOffset Hoff) as [Hy [Hm Hd]].
  exact (formatLoop_first_of_may _ utcOffset Hy Hm Hd).
Qed.

(** C7, as amended.  A cell is formatted as a date exactly when its value
    is a valid date for dayjs and equal to the ISO string of that date;
    the pattern is the prop [dateFormat], or [DD/MM/YYYY] when none is
    given; any other value that is present is rendered unchanged, and a
    missing one as nothing.  The date is formatted in the local time of
    the host: where that is UTC or ahead of UTC,
    [2023-05-01T00:00:00.000Z] is rendered [01/05/2023] with no
    [dateFormat] and [05/01/23] with [MM/DD/YY]. *)
Theorem renderProperty_dates :
  (forall (D : Dayjs) (dateFormat : option string) (r : row) (c : column),
     renderProperty dateFormat r c
     = if hasOwnProperty r (category c) then
         if isValid (get r (category c))
            && strictEqualsString (get r (category c))
                                  (toISOString (get r (category c)))
         then VStr (format (get r (category c)) (effectiveFormat dateFormat))
         else get r (category c)
       else VUndefined)
  /\ effectiveFormat None = "DD/MM/YYYY"
  /\ (forall utcOffset now : Z,
        0 <= utcOffset < 1440 ->
        @renderProperty (dayjsHost utcOffset now) None dateRow dateColumn
        = VStr "01/05/2023"
        /\ @renderProperty (dayjsHost utcOffset now) (Some "MM/DD/YY")
                           dateRow dateColumn
           = VStr "05/01/23").
Proof.
  split; [intros D; apply renderProperty_cases|].
  split; [reflexivity|].
  intros utcOffset now Hoff.
  destruct (formatTime_first_of_may utcOffset Hoff) as [Hdefault Hus].
  rewrite !renderProperty_cases.
  change (hasOwnProperty dateRow (category dateColumn)) with true.
  change (get dateRow (category dateColumn)) with (VStr isoDate).
  cbn [effectiveFormat String.eqb Ascii.eqb Bool.eqb].
  unfold dayjsHost, isValid, toISOString, format, timeValue.
  change (parseIso isoDate) with (Some 1682899200000).
  change (isoStringOf 1682899200000) with isoDate.
  change (strictEqualsString (VStr isoDate) isoDate) with true.
  cbn [andb]. now rewrite Hdefault, Hus.
Qed.

Lemma renderProperty_dates_witness :
  0 <= 120 < 1440
  /\ @renderProperty (dayjsHost 120 0) None dateRow dateColumn
     = VStr "01/05/2023"
  /\ @renderProperty (dayjsHost 120 0) (Some "MM/DD/YY") dateRow dateColumn
     = VStr "05/01/23".
Proof.
  split; [lia|].
  apply (proj2 (proj2 renderProperty_dates) 120 0). lia.
Defined.

(** The claim as first stated fails on a host behind UTC: five hours west,
    the same string is rendered as the day before. *)
Lemma renderProperty_behind_utc :
  @renderProperty (dayjsHost (-300) 0) None dateRow dateColumn
  = VStr "30/04/2023"
  /\ @renderProperty (dayjsHost (-300) 0) (Some "MM/DD/YY") dateRow dateColumn
     = VStr "04/30/23".
Proof. split; vm_compute; reflexivity. Qed.

(** * Further properties of the paginator *)

Lemma separatePages_cons {A} (rowsDisplayed : Z) (content : list A) :
  content <> [] -> 1 <= rowsDisplayed ->
  separatePages rowsDisplayed content
  = firstn (Z.to_nat rowsDisplayed) content
      :: separatePages rowsDisplayed
           (firstn (List.length content - Z.to_nat rowsDisplayed)
                   (skipn (Z.to_nat rowsDisplayed - 1) content)).
Proof.
  intros Hne Hrd. rewrite (separatePages_step _ _ Hne).
  rewrite slice_front by lia. now rewrite slice_rest by lia.
Qed.

Lemma separatePages_rest_length {A} (p : nat) (content : list A) :
  (1 <= p)%nat ->
  List.length (firstn (List.length content - p) (skipn (p - 1) content))
  = (List.length content - p)%nat.
Proof. intros Hp. rewrite length_firstn, length_skipn. lia. Qed.

Lemma separatePages_page {A} (rowsDisplayed : Z) (k : nat) :
  1 <= rowsDisplayed ->
  forall content : list A,
    (k * Z.to_nat rowsDisplayed < List.length content)%nat ->
    nth k (separatePages rowsDisplayed content) []
    = firstn (Z.to_nat rowsDisplayed)
        (skipn (k * (Z.to_nat rowsDisplayed - 1))
               (firstn (List.length content - k) content)).
Proof.
  intros Hrd. set (p := Z.to_nat rowsDisplayed).
  assert (Hp : (1 <= p)%nat) by (unfold p; lia).
  induction k as [|k IH]; intros content Hk.
  - rewrite separatePages_cons 
      by (first [lia | destruct content; cbn in *; [lia|discriminate]]).
    cbn [nth Nat.mul skipn]. now rewrite Nat.sub_0_r, firstn_all.
  - rewrite separatePages_cons 
      by (first [lia | destruct content; cbn in *; [lia|discriminate]]).
    cbn [nth]. fold p.
    rewrite IH by (rewrite separatePages_rest_length by exact Hp; nia).
    rewrite separatePages_rest_length by exact Hp.
    rewrite firstn_firstn.
    replace (Nat.min (List.length content - p - k) (List.length content - p))
      with (List.length content - p - k)%nat by lia.
    rewrite (firstn_skipn_comm (List.length content - p - k) (p - 1) content).
    rewrite skipn_skipn.
    replace (p - 1 + (List.length content - p - k))%nat
      with (List.length content - S k)%nat by nia.
    f_equal. f_equal. nia.
Qed.

Lemma separatePages_count {A} (rowsDisplayed : Z) (content : list A) :
  1 <= rowsDisplayed ->
  List.length (separatePages rowsDisplayed content)
  = ((List.length content + Z.to_nat rowsDisplayed - 1)
       / Z.to_nat rowsDisplayed)%nat.
Proof.
  intros Hrd. set (p := Z.to_nat rowsDisplayed).
  assert (Hp : (1 <= p)%nat) by (unfold p; lia).
  remember (List.length content) as n eqn:Hn. revert content Hn.
  induction n as [n IH] using lt_wf_ind. intros content Hn.
  destruct content as [|x l] eqn:Ec.
  - cbn in Hn. subst n. cbn. symmetry. apply Nat.div_small. lia.
  - rewrite <- Ec in *.
    assert (Hpos : (1 <= n)%nat) by (subst n content; cbn; lia).
    rewrite separatePages_cons by (first [lia | subst content; discriminate]).
    cbn [List.length]. fold p.
    rewrite (IH (n - p)%nat) by
      (first [lia | rewrite separatePages_rest_length by exact Hp; lia]).
    replace (n + p - 1)%nat with (n - 1 + 1 * p)%nat by lia.
    rewrite Nat.div_add by lia.
    destruct (Nat.le_gt_cases p n) as [Hge|Hlt].
    + replace (n - p + p - 1)%nat with (n - 1)%nat by lia. lia.
    + replace (n - p + p - 1)%nat with (p - 1)%nat by lia.
      rewrite (Nat.div_small (p - 1)), (Nat.div_small (n - 1)) by lia. lia.
Qed.

Lemma separatePages_index_bound (n p k : nat) :
  (1 <= p)%nat -> (k < (n + p - 1) / p)%nat -> (k * p < n)%nat.
Proof.
  intros Hp Hk.
  pose proof (Nat.Div0.mul_div_le (n + p - 1) p) as Hq. nia.
Qed.

Lemma separatePages_page_length {A} (rowsDisplayed : Z) (content : list A)
    (k : nat) :
  1 <= rowsDisplayed ->
  (k < List.length (separatePages rowsDisplayed content))%nat ->
  (k * Z.to_nat rowsDisplayed < List.length content)%nat
  /\ List.length (nth k (separatePages rowsDisplayed content) [])
     = Nat.min (Z.to_nat rowsDisplayed)
               (List.length content - k * Z.to_nat rowsDisplayed).
Proof.
  intros Hrd Hk. rewrite separatePages_count in Hk by exact Hrd.
  apply separatePages_index_bound in Hk; [|lia].
  split; [exact Hk|].
  rewrite separatePages_page by assumption.
  rewrite length_firstn, length_skipn, length_firstn. nia.
Qed.

(** X1.  For a page size of at least one, the pages are as many and as
    long as a partition would have them: [ceil(n / rowsDisplayed)] pages,
    page [k] holding [min rowsDisplayed (n - k * rowsDisplayed)] records,
    so every page is full but the last, which is not empty. *)
Theorem separatePages_sizes {A} (rowsDisplayed : Z) (content : list A) :
  1 <= rowsDisplayed ->
  List.length (separatePages rowsDisplayed content)
  = ((List.length content + Z.to_nat rowsDisplayed - 1)
       / Z.to_nat rowsDisplayed)%nat
  /\ forall k,
       (k < List.length (separatePages rowsDisplayed content))%nat ->
       List.length (nth k (separatePages rowsDisplayed content) [])
       = Nat.min (Z.to_nat rowsDisplayed)
                 (List.length content - k * Z.to_nat rowsDisplayed).
Proof.
  intros Hrd. split; [now apply separatePages_count|].
  intros k Hk. now apply separatePages_page_length.
Qed.

Lemma separatePages_sizes_witness :
  1 <= 10
  /\ List.length (separatePages 10 (records 45)) = 5%nat
  /\ List.length (nth 4 (separatePages 10 (records 45)) []) = 5%nat.
Proof.
  split; [lia|].
  destruct (separatePages_sizes 10 (records 45) ltac:(lia)) as [Hcount Hsize].
  split; [exact Hcount|].
  apply (Hsize 4%nat). rewrite Hcount. vm_compute. lia.
Defined.

Lemma separatePages_item {A} (rowsDisplayed : Z) (content : list A)
    (k j : nat) (d : A) :
  1 <= rowsDisplayed ->
  (k < List.length (separatePages rowsDisplayed content))%nat ->
  (j < List.length (nth k (separatePages rowsDisplayed content) []))%nat ->
  nth j (nth k (separatePages rowsDisplayed content) []) d
  = nth (k * (Z.to_nat rowsDisplayed - 1) + j) content d.
Proof.
  intros Hrd Hk Hj.
  destruct (separatePages_page_length rowsDisplayed content k Hrd Hk)
    as [Hkp Hsize].
  rewrite Hsize in Hj.
  rewrite separatePages_page by assumption.
  rewrite nth_firstn.
  destruct (Nat.ltb_spec j (Z.to_nat rowsDisplayed)) as [_|Hge]; [|lia].
  rewrite nth_skipn, nth_firstn.
  destruct (Nat.ltb_spec (k * (Z.to_nat rowsDisplayed - 1) + j)
                         (List.length content - k)) as [_|Hge];
    [reflexivity|nia].
Qed.

(** X2.  What a page holds: the record at position [j] of page [k] is the
    record at index [k * (rowsDisplayed - 1) + j] of the collection.  Page
    [k] therefore starts [k] records before the place a partition would
    start it at. *)
Theorem separatePages_record {A} (rowsDisplayed : Z) (content : list A)
    (k j : nat) (d : A) :
  1 <= rowsDisplayed ->
  (k < List.length (separatePages rowsDisplayed content))%nat ->
  (j < List.length (nth k (separatePages rowsDisplayed content) []))%nat ->
  nth j (nth k (separatePages rowsDisplayed content) []) d
  = nth (k * (Z.to_nat rowsDisplayed - 1) + j) content d.
Proof. apply separatePages_item. Qed.

Lemma separatePages_record_witness :
  1 <= 10
  /\ (2 < List.length (separatePages 10 (records 45)))%nat
  /\ (3 < List.length (nth 2 (separatePages 10 (records 45)) []))%nat
  /\ nth 3 (nth 2 (separatePages 10 (records 45)) []) 0 = 21.
Proof.
  split; [lia|]. split; [vm_compute; lia|]. split; [vm_compute; lia|].
  exact (separatePages_record 10 (records 45) 2 3 0 ltac:(lia)
           ltac:(vm_compute; lia) ltac:(vm_compute; lia)).
Defined.

(** X3.  With [m] pages of distinct records, the last [m - 1] records of
    the collection stand on no page: nothing at an index from
    [n - (m - 1)] on is ever shown. *)
Theorem separatePages_tail_lost {A} (rowsDisplayed : Z) (content : list A)
    (i : nat) (d : A) :
  NoDup content ->
  1 <= rowsDisplayed ->
  (List.length content - (List.length (separatePages rowsDisplayed content) - 1)
   <= i < List.length content)%nat ->
  ~ In (nth i content d) (List.concat (separatePages rowsDisplayed content)).
Proof.
  intros Hnd Hrd [Hlo Hhi] Hin.
  apply in_concat in Hin. destruct Hin as [page [Hpage Hx]].
  destruct (In_nth _ _ [] Hpage) as [k [Hk Hnk]]. subst page.
  destruct (In_nth _ _ d Hx) as [j [Hj Hnj]].
  rewrite separatePages_item in Hnj by assumption.
  destruct (separatePages_page_length rowsDisplayed content k Hrd Hk)
    as [Hkp Hsize].
  rewrite Hsize in Hj.
  pose proof (separatePages_count rowsDisplayed content Hrd) as Hcount.
  set (p := Z.to_nat rowsDisplayed) in *.
  set (n := List.length content) in *.
  set (m := List.length (separatePages rowsDisplayed content)) in *.
  assert (Hp : (1 <= p)%nat) by (unfold p; lia).
  assert (Hm : ((m - 1) * p < n)%nat).
  { apply separatePages_index_bound; [exact Hp|]. rewrite <- Hcount. lia. }
  assert (Hidx : (k * (p - 1) + j + (m - 1) < n)%nat).
  { destruct (Nat.eq_dec k (m - 1)) as [-> |Hne]; [nia|].
    assert (Hk1 : (k + 1 <= m - 1)%nat) by lia.
    assert (((k + 1) * (p - 1) <= (m - 1) * (p - 1))%nat)
      by (apply Nat.mul_le_mono_r; exact Hk1).
    nia. }
  apply (proj1 (NoDup_nth content d) Hnd) in Hnj; lia.
Qed.

Lemma records_NoDup (n : nat) : NoDup (records n).
Proof.
  unfold records. apply NoDup_map_NoDup_ForallPairs; [|apply seq_NoDup].
  intros x y _ _. apply Nat2Z.inj.
Qed.

Lemma separatePages_tail_lost_witness :
  NoDup (records 45)
  /\ 1 <= 10
  /\ ~ In (nth 42 (records 45) 0) (List.concat (separatePages 10 (records 45))).
Proof.
  pose proof (records_NoDup 45) as Hnd.
  split; [exact Hnd|]. split; [lia|].
  apply (separatePages_tail_lost 10 (records 45) 42 0 Hnd ltac:(lia)).
  vm_compute. lia.
Defined.

(** X4.  No record gives no page, and a collection that fits on one page
    is that page alone, unchanged. *)
Theorem separatePages_one_page {A} (rowsDisplayed : Z) (content : list A) :
  Z.of_nat (List.length content) <= rowsDisplayed ->
  separatePages rowsDisplayed content
  = match content with
    | [] => []
    | _ :: _ => [content]
    end.
Proof.
  intros Hfit. destruct content as [|x l]; [reflexivity|].
  apply separatePages_single; [discriminate|exact Hfit].
Qed.

Lemma separatePages_one_page_witness :
  Z.of_nat (List.length (records 7)) <= 10
  /\ separatePages 10 (records 7) = [records 7].
Proof.
  split; [vm_compute; discriminate|].
  apply (separatePages_one_page 10 (records 7)). vm_compute. discriminate.
Defined.

(** * The view *)

Lemma item_nth {A} (a : list A) (i : nat) (d : A) :
  (i < List.length a)%nat -> item a (Z.of_nat i) = Some (nth i a d).
Proof.
  intros Hi. unfold item.
  destruct (Z.ltb_spec (Z.of_nat i) 0) as [Hneg|_]; [lia|].
  rewrite Nat2Z.id. now apply nth_error_nth'.
Qed.

Lemma item_beyond {A} (a : list A) (i : Z) :
  Z.of_nat (List.length a) <= i -> item a i = None.
Proof.
  intros Hi. unfold item.
  destruct (Z.ltb_spec i 0) as [_|_]; [reflexivity|].
  apply nth_error_None. lia.
Qed.

(** The invariant of the view: the page index is not negative, and below
    the number of pages when there is a page. *)
Lemma viewReachable_invariant {A} (v : view A) :
  viewReachable v ->
  0 <= currentPage v
  /\ forall pages,
       separatedContent v = Some pages -> pages <> [] ->
       currentPage v < Z.of_nat (List.length pages).
Proof.
  induction 1 as [|v v' _ [Hnn Hlt] Hstep].
  - split; [cbn; lia|]. intros pages Hp. discriminate.
  - destruct Hstep as [rowsDisplayed [content|] v|v Hshown|v Hshown].
    + cbn. split; [lia|]. intros pages [= <-] Hne.
      destruct (separatePages rowsDisplayed content); [congruence|cbn; lia].
    + cbn. split; assumption.
    + unfold previousShown, hasPages in Hshown. cbn.
      destruct (separatedContent v) as [[|page pages]|] eqn:Es;
        try discriminate.
      apply negb_true_iff, Z.eqb_neq in Hshown.
      split; [lia|]. intros pages' [= <-] _.
      specialize (Hlt _ eq_refl ltac:(discriminate)). lia.
    + unfold nextShown, hasPages in Hshown. cbn.
      destruct (separatedContent v) as [[|page pages]|] eqn:Es;
        try discriminate.
      apply negb_true_iff, Z.eqb_neq in Hshown.
      split; [lia|]. intros pages' [= <-] _.
      specialize (Hlt _ eq_refl ltac:(discriminate)). lia.
Qed.

(** X5.  Whatever the sequence of recomputations and of clicks on the
    buttons that are rendered, the page index stays within the pages:
    when the body renders rows, [separatedContent[currentPage]] is a
    page, and the two buttons lead to a page again. *)
Theorem view_current_page_defined {A} (v : view A) :
  viewReachable v ->
  hasPages v = true ->
  (exists page, currentRows v = Ok page)
  /\ (previousShown v = true ->
      exists page, currentRows (clickPrevious v) = Ok page)
  /\ (nextShown v = true ->
      exists page, currentRows (clickNext v) = Ok page).
Proof.
  intros Hreach Hpages.
  assert (Hdefined : forall w : view A,
            viewReachable w -> hasPages w = true ->
            exists page, currentRows w = Ok page).
  { intros w Hw Hhas. destruct (viewReachable_invariant w Hw) as [Hnn Hlt].
    unfold hasPages in Hhas. unfold currentRows.
    destruct (separatedContent w) as [[|page pages]|] eqn:Es;
      try discriminate.
    specialize (Hlt _ eq_refl ltac:(discriminate)).
    rewrite <- (Z2Nat.id (currentPage w)) by exact Hnn.
    rewrite (item_nth _ _ []) by lia. eexists; reflexivity. }
  split; [now apply Hdefined|]. split; intros Hshown.
  - apply Hdefined.
    + eapply reachStep; [exact Hreach|now apply stepPrevious].
    + exact Hpages.
  - apply Hdefined.
    + eapply reachStep; [exact Hreach|now apply stepNext].
    + exact Hpages.
Qed.

Lemma view_current_page_defined_witness :
  exists page,
    currentRows (clickNext (pageEffect 10 (Some (records 45)) initialView))
    = Ok page.
Proof.
  assert (Hreach :
    viewReachable (pageEffect 10 (Some (records 45)) initialView)).
  { eapply reachStep; [apply reachInitial|apply stepEffect]. }
  exact (proj2 (proj2 (view_current_page_defined _ Hreach eq_refl)) eq_refl).
Defined.

Section Counter.
Context {A : Type} (same : A -> A -> bool).
Hypothesis same_spec : forall x y, same x y = true <-> x = y.

Lemma indexOfFrom_nth (a : list A) (i : nat) (d : A) (start : Z) :
  NoDup a -> (i < List.length a)%nat ->
  indexOfFrom same a (nth i a d) start = start + Z.of_nat i.
Proof.
  revert i start. induction a as [|y a IH]; intros i start Hnd Hi;
    [cbn in Hi; lia|].
  inversion Hnd as [|? ? Hy Hnd']; subst. destruct i as [|i]; cbn.
  - rewrite (proj2 (same_spec y y) eq_refl). lia.
  - destruct (same y (nth i a d)) eqn:Es.
    + apply same_spec in Es. exfalso. apply Hy. rewrite Es.
      apply nth_In. cbn in Hi. lia.
    + rewrite IH by (try assumption; cbn in Hi; lia). lia.
Qed.
End Counter.

(** X6.  The counter of the footer on page [k] of distinct records: it
    starts at [k * (rowsDisplayed - 1) + 1]; on a full page it ends
    [rowsDisplayed - 1] further, and on a page that is not full it ends at
    the number of records. *)
Theorem showing_counter {A} (same : A -> A -> bool) (rowsDisplayed : Z)
    (content : list A) (k : nat) :
  (forall x y, same x y = true <-> x = y) ->
  NoDup content ->
  1 <= rowsDisplayed ->
  (k < List.length (separatePages rowsDisplayed content))%nat ->
  let v := {| separatedContent := Some (separatePages rowsDisplayed content);
              currentPage := Z.of_nat k |} in
  showingFrom same content v
  = Ok (Z.of_nat k * (rowsDisplayed - 1) + 1)
  /\ showingTo same rowsDisplayed content v
     = Ok (if (Z.of_nat k + 1) * rowsDisplayed
              <=? Z.of_nat (List.length content)
           then Z.of_nat k * (rowsDisplayed - 1) + rowsDisplayed
           else Z.of_nat (List.length content)).
Proof.
  intros Hsame Hnd Hrd Hk v.
  destruct (separatePages_page_length rowsDisplayed content k Hrd Hk)
    as [Hkp Hsize].
  assert (d : A) by (destruct content as [|d rest]; [cbn in Hkp; lia|exact d]).
  set (p := Z.to_nat rowsDisplayed) in *.
  assert (Hp : Z.of_nat p = rowsDisplayed) by (unfold p; lia).
  set (page := nth k (separatePages rowsDisplayed content) []) in *.
  assert (Hrows : currentRows v = Ok page).
  { unfold currentRows, v. cbn [separatedContent currentPage].
    now rewrite (item_nth _ _ []) by exact Hk. }
  assert (Hidx : forall j, (j < List.length page)%nat ->
            indexOf same content (item page (Z.of_nat j))
            = Z.of_nat (k * (p - 1) + j)).
  { intros j Hj. rewrite (item_nth _ _ d) by exact Hj. unfold page.
    rewrite separatePages_item by assumption. fold p. cbn [indexOf].
    rewrite (indexOfFrom_nth same Hsame); [lia|exact Hnd|].
    fold page in Hj. rewrite Hsize in Hj. nia. }
  unfold showingFrom, showingTo. rewrite Hrows. cbn [bind]. split.
  - change 0 with (Z.of_nat 0). rewrite Hidx by lia. f_equal. nia.
  - destruct (Z.leb_spec ((Z.of_nat k + 1) * rowsDisplayed)
                         (Z.of_nat (List.length content))) as [Hfull|Hshort].
    + replace (rowsDisplayed - 1) with (Z.of_nat (p - 1)) by lia.
      rewrite Hidx by nia.
      destruct (Z.eqb_spec (Z.of_nat (k * (p - 1) + (p - 1))) (-1)) as [e|_];
        [exfalso; revert e; generalize (k * (p - 1) + (p - 1))%nat; lia|].
      f_equal. nia.
    + rewrite item_beyond by nia. reflexivity.
Qed.

Lemma showing_counter_witness :
  showingFrom Z.eqb (records 45)
    {| separatedContent := Some (separatePages 10 (records 45));
       currentPage := 1 |} = Ok 10
  /\ showingTo Z.eqb 10 (records 45)
       {| separatedContent := Some (separatePages 10 (records 45));
          currentPage := 1 |} = Ok 19.
Proof.
  exact (showing_counter Z.eqb 10 (records 45) 1 Z.eqb_eq (records_NoDup 45)
           ltac:(lia) ltac:(vm_compute; lia)).
Defined.

(** * Further properties of the schema deriver *)

Ltac ascii_cases c :=
  destruct c as [[] [] [] [] [] [] [] []];
  try discriminate; try reflexivity.

Lemma existsb_eqb_In (k : string) (l : list string) :
  existsb (String.eqb k) l = true <-> In k l.
Proof.
  rewrite existsb_exists. split.
  - intros [x [Hin Heq]]. apply String.eqb_eq in Heq. now subst.
  - intros Hin. exists k. split; [exact Hin|apply String.eqb_refl].
Qed.

Section Collect.
Lemma addKey_spec temp k :
  NoDup temp ->
  NoDup (addKey temp k)
  /\ (forall x, In x (addKey temp k) <-> In x temp \/ x = k)
  /\ exists more, addKey temp k = temp ++ more.
Proof.
  intros Hnd. unfold addKey.
  destruct (existsb (String.eqb k) temp) eqn:E.
  - apply existsb_eqb_In in E. split; [exact Hnd|]. split.
    + intros x. split; [auto|]. intros [H | ->]; assumption.
    + exists []. now rewrite app_nil_r.
  - assert (Hk : ~ In k temp).
    { intros Hin. apply existsb_eqb_In in Hin. congruence. }
    split; [|split].
    + apply NoDup_app; [exact Hnd|repeat constructor; intros []|].
      intros x Hx Hxk. destruct Hxk as [<- |Hf]; [contradiction|destruct Hf].
    + intros x. rewrite in_app_iff. cbn. intuition congruence.
    + now exists [k].
Qed.

Lemma addKeys_spec ks temp :
  NoDup temp ->
  NoDup (fold_left addKey ks temp)
  /\ (forall x, In x (fold_left addKey ks temp) <-> In x temp \/ In x ks)
  /\ exists more, fold_left addKey ks temp = temp ++ more.
Proof.
  revert temp. induction ks as [|k ks IH]; intros temp Hnd; cbn [fold_left].
  - split; [exact Hnd|]. split; [cbn; tauto|].
    exists []. now rewrite app_nil_r.
  - destruct (addKey_spec temp k Hnd) as [Hnd' [Hin' [more' Hmore']]].
    destruct (IH _ Hnd') as [Hnd'' [Hin'' [more'' Hmore'']]].
    split; [exact Hnd''|]. split.
    + intros x. rewrite Hin'', Hin'. cbn. intuition congruence.
    + exists (more' ++ more''). rewrite Hmore'', Hmore'. now rewrite app_assoc.
Qed.

Lemma addRows_spec (content : list row) temp :
  NoDup temp ->
  NoDup (fold_left addRow content temp)
  /\ (forall x, In x (fold_left addRow content temp)
                <-> In x temp
                    \/ exists object, In object content /\ In x (keys object))
  /\ exists more, fold_left addRow content temp = temp ++ more.
Proof.
  revert temp. induction content as [|object content IH]; intros temp Hnd;
    cbn [fold_left].
  - split; [exact Hnd|]. split.
    + intros x. split; [auto|]. intros [H|[o [Hf _]]]; [exact H|destruct Hf].
    + exists []. now rewrite app_nil_r.
  - unfold addRow at 2 4 6.
    destruct (addKeys_spec (keys object) temp Hnd) as [Hnd' [Hin' [more' Hmore']]].
    destruct (IH _ Hnd') as [Hnd'' [Hin'' [more'' Hmore'']]].
    split; [exact Hnd''|]. split.
    + intros x. rewrite Hin'', Hin'. cbn. split.
      * intros [[H|H]|[o [Ho Hx]]]; [now left|right; exists object; auto|].
        right. exists o. auto.
      * intros [H|[o [[<- |Ho] Hx]]]; [auto|auto|].
        right. exists o. auto.
    + exists (more' ++ more''). rewrite Hmore'', Hmore'. now rewrite app_assoc.
Qed.

Lemma collectCategories_fold (content : list row) :
  collectCategories content = fold_left addRow content [].
Proof. reflexivity. Qed.

Lemma collectCategories_app (content more : list row) :
  collectCategories (content ++ more)
  = fold_left addRow more (collectCategories content).
Proof. unfold collectCategories. apply fold_left_app. Qed.

Lemma collectCategories_spec (content : list row) :
  NoDup (collectCategories content)
  /\ forall k, In k (collectCategories content)
               <-> exists object, In object content
                                  /\ hasOwnProperty object k = true.
Proof.
  rewrite collectCategories_fold.
  destruct (addRows_spec content [] (NoDup_nil _)) as [Hnd [Hin _]].
  split; [exact Hnd|]. intros k. rewrite Hin. split.
  - intros [Hf|[o [Ho Hk]]]; [destruct Hf|]. exists o. split; [exact Ho|].
    now apply hasOwnProperty_In.
  - intros [o [Ho Hk]]. right. exists o. split; [exact Ho|].
    now apply hasOwnProperty_In.
Qed.

Lemma collectCategories_prefix (content more : list row) :
  exists columns,
    collectCategories (content ++ more) = collectCategories content ++ columns.
Proof.
  rewrite collectCategories_app.
  destruct (collectCategories_spec content) as [Hnd _].
  destruct (addRows_spec more _ Hnd) as [_ [_ Hmore]]. exact Hmore.
Qed.
End Collect.

(** X7.  The columns are the properties of the rows, each once: a key is
    a column exactly when some row has it as a property, and no column is
    listed twice. *)
Theorem collectCategories_union (content : list row) :
  NoDup (collectCategories content)
  /\ forall k, In k (collectCategories content)
               <-> exists object, In object content
                                  /\ hasOwnProperty object k = true.
Proof. apply collectCategories_spec. Qed.

(** X8.  The columns stand in the order in which the properties are first
    seen: further rows add their new properties after the columns of the
    rows before them, which keep their places. *)
Theorem collectCategories_first_seen (content more : list row) :
  exists columns,
    collectCategories (content ++ more) = collectCategories content ++ columns
    /\ forall k, In k columns ->
         ~ In k (collectCategories content)
         /\ exists object, In object more /\ hasOwnProperty object k = true.
Proof.
  destruct (collectCategories_prefix content more) as [columns Hc].
  exists columns. split; [exact Hc|]. intros k Hk.
  destruct (collectCategories_spec (content ++ more)) as [Hnd Hin].
  rewrite Hc in Hnd, Hin.
  assert (Hfresh : ~ In k (collectCategories content)).
  { intros Hold. apply NoDup_app_remove_l in Hnd as Hcols.
    clear Hcols. revert Hnd Hold Hk. clear.
    generalize (collectCategories content) as old.
    induction old as [|x old IH]; intros Hnd Hold Hk; [destruct Hold|].
    inversion Hnd as [|? ? Hx Hnd']; subst.
    destruct Hold as [-> |Hold].
    - apply Hx. apply in_or_app. now right.
    - now apply IH. }
  split; [exact Hfresh|].
  destruct (proj1 (Hin k) (in_or_app _ _ _ (or_intror Hk))) as [o [Ho Hok]].
  apply in_app_or in Ho. destruct Ho as [Ho|Ho]; [|now exists o].
  exfalso. apply Hfresh.
  apply (proj2 (collectCategories_spec content)). now exists o.
Qed.

Lemma getSubstitution_space (matched before after t : string) :
  getSubstitution matched before after (String " " t)
  = String " " (getSubstitution matched before after t).
Proof. reflexivity. Qed.

Lemma replace_space_nonempty (s pat t : string) :
  s <> EmptyString -> replace s pat (String " " t) <> EmptyString.
Proof.
  intros Hs. unfold replace.
  destruct (findFirst pat s) as [[before after]|]; [|exact Hs].
  rewrite getSubstitution_space. destruct before; discriminate.
Qed.

(** Only the empty key has no label. *)
Lemma formatCategory_defined (key : string) :
  key <> EmptyString -> exists label, formatCategory key = Ok label.
Proof.
  intros Hkey. unfold formatCategory.
  set (step := fun formattedCategory letter =>
                 if String.eqb letter (toUpperCase letter)
                 then replace key letter (" " ++ toLowerCase letter)
                 else formattedCategory).
  assert (Hfold : forall ls acc, acc <> EmptyString ->
                    fold_left step ls acc <> EmptyString).
  { induction ls as [|l ls IH]; intros acc Hacc; [exact Hacc|].
    cbn [fold_left]. apply IH. unfold step.
    destruct (String.eqb l (toUpperCase l)); [|exact Hacc].
    now apply replace_space_nonempty. }
  specialize (Hfold (letters key) key Hkey).
  destruct (fold_left step (letters key) key); [congruence|].
  eexists; reflexivity.
Qed.

Lemma defineCategories_throw (cats : list string)
    (acc : result (list column * sortingState)) :
  In EmptyString cats ->
  fold_left
    (fun acc category =>
       '(formattedCategories, initSorting) <- acc ;;
       formattedCategory <- formatCategory category ;;
       Ok (formattedCategories ++
             [{| category := category;
                 formattedCategory := formattedCategory |}],
           assign initSorting category SortNone))
    cats acc = Throw TypeError.
Proof.
  revert acc. induction cats as [|k cats IH]; intros acc Hin; [destruct Hin|].
  cbn [fold_left]. destruct Hin as [-> | Hin]; [|now apply IH].
  destruct acc as [[cols s]|[]]; cbn; apply fold_left_Throw; reflexivity.
Qed.

Lemma defineCategories_ok (cats : list string) (cols0 : list column)
    (s0 : sortingState) :
  ~ In EmptyString cats ->
  NoDup (keys s0 ++ cats) ->
  exists cols,
    fold_left
      (fun acc category =>
         '(formattedCategories, initSorting) <- acc ;;
         formattedCategory <- formatCategory category ;;
         Ok (formattedCategories ++
               [{| category := category;
                   formattedCategory := formattedCategory |}],
             assign initSorting category SortNone))
      cats (Ok (cols0, s0))
    = Ok (cols0 ++ cols, s0 ++ map (fun k => (k, SortNone)) cats)
    /\ map category cols = cats
    /\ Forall (fun col => formatCategory (category col)
                          = Ok (formattedCategory col)) cols.
Proof.
  revert cols0 s0. induction cats as [|k cats IH]; intros cols0 s0 Hne Hnd.
  - exists []. cbn. now rewrite !app_nil_r.
  - cbn [fold_left bind].
    destruct (formatCategory_defined k) as [label Hlabel].
    { intros ->. apply Hne. now left. }
    rewrite Hlabel. cbn [bind].
    assert (Hfresh : hasOwnProperty s0 k = false).
    { destruct (hasOwnProperty s0 k) eqn:E; [|reflexivity].
      apply hasOwnProperty_In in E. exfalso.
      apply NoDup_remove_2 in Hnd. apply Hnd. apply in_or_app. now left. }
    rewrite (assign_fresh _ _ _ Hfresh).
    destruct (IH (cols0 ++ [{| category := k; formattedCategory := label |}])
                 (s0 ++ [(k, SortNone)])) as [cols [Hfold [Hmap Hall]]].
    { intros Hin. apply Hne. now right. }
    { unfold keys. rewrite map_app. cbn. rewrite <- app_assoc. exact Hnd. }
    exists ({| category := k; formattedCategory := label |} :: cols).
    split; [|split].
    + etransitivity; [exact Hfold|]. now rewrite <- !app_assoc.
    + cbn. now rewrite Hmap.
    + constructor; assumption.
Qed.

(** X9.  [defineCategories] fails exactly when some row has a property
    whose name is the empty string.  Otherwise it gives one column for
    each key collected, in that order, each with its label, and a sort
    state; when the keys collected are ordinary, the sort state holds
    every column, in the same order, at none. *)
Theorem defineCategories_result (content : list row) :
  (In EmptyString (collectCategories content) ->
   defineCategories content = Throw TypeError)
  /\ (~ In EmptyString (collectCategories content) ->
      exists cols sorting,
        defineCategories content = Ok (cols, sorting)
        /\ map category cols = collectCategories content
        /\ Forall (fun col => formatCategory (category col)
                              = Ok (formattedCategory col)) cols
        /\ (forallb ordinaryKey (collectCategories content) = true ->
            sorting
            = map (fun k => (k, SortNone)) (collectCategories content))).
Proof.
  split.
  - apply defineCategories_throw.
  - intros Hne.
    destruct (defineCategories_ok (collectCategories content) [] [] Hne)
      as [cols [Hdef [Hmap Hall]]].
    + cbn. apply collectCategories_spec.
    + exists cols, (map (fun k => (k, SortNone)) (collectCategories content)).
      repeat split; assumption || reflexivity.
Qed.

Lemma defineCategories_result_witness :
  defineCategories [ [("animal", VStr "manatee"); ("", VStr "x")] ]
  = Throw TypeError
  /\ forallb ordinaryKey
       (collectCategories [person "Bob" "paris"; [("age", VNum 41)]]) = true
  /\ exists cols,
       defineCategories [person "Bob" "paris"; [("age", VNum 41)]]
       = Ok (cols, [("name", SortNone); ("city", SortNone); ("age", SortNone)]).
Proof.
  split; [|split; [reflexivity|]].
  - apply (proj1 (defineCategories_result
                    [ [("animal", VStr "manatee"); ("", VStr "x")] ])).
    vm_compute. auto.
  - destruct (proj2 (defineCategories_result
                       [person "Bob" "paris"; [("age", VNum 41)]]))
      as [cols [sorting [Hdef [_ [_ Hsorting]]]]].
    + vm_compute. intros [E|[E|[E|[]]]]; discriminate.
    + exists cols. rewrite Hdef, (Hsorting eq_refl). reflexivity.
Defined.

Lemma prefix_empty (s : string) : String.prefix EmptyString s = true.
Proof. now destruct s. Qed.

Lemma prefix_single (u c : ascii) (t : string) :
  String.prefix (String u EmptyString) (String c t)
  = if ascii_dec u c then true else false.
Proof. cbn. destruct (ascii_dec u c); [apply prefix_empty|reflexivity]. Qed.

Lemma findFirst_head (c : ascii) (t : string) :
  findFirst (String c EmptyString) (String c t) = Some (EmptyString, t).
Proof.
  cbn [findFirst]. rewrite prefix_single.
  destruct (ascii_dec c c); [reflexivity|congruence].
Qed.

Lemma findFirst_skip (u : ascii) (pre t : string) :
  Forall (fun c => c <> u) (list_ascii_of_string pre) ->
  findFirst (String u EmptyString) (pre ++ String u t) = Some (pre, t).
Proof.
  induction pre as [|c pre IH]; cbn [list_ascii_of_string append]; intros Hpre.
  - apply findFirst_head.
  - inversion Hpre as [|? ? Hc Hrest]; subst.
    cbn [findFirst]. rewrite prefix_single.
    destruct (ascii_dec u c); [congruence|].
    fold (findFirst (String u EmptyString) (pre ++ String u t)).
    now rewrite IH.
Qed.

Lemma getSubstitution_single (matched before after : string) (u : ascii) :
  getSubstitution matched before after (String u EmptyString)
  = String u EmptyString.
Proof. ascii_cases u. Qed.

Lemma replace_head (c u : ascii) (t : string) :
  replace (String c t) (String c EmptyString) (String u EmptyString)
  = String u t.
Proof.
  unfold replace. rewrite findFirst_head, getSubstitution_single. reflexivity.
Qed.

Lemma lower_not_own_upper (c : ascii) :
  isLower c = true ->
  String.eqb (String c EmptyString) (toUpperCase (String c EmptyString)) = false.
Proof. ascii_cases c. Qed.

Lemma upper_own_upper (c : ascii) :
  isUpper c = true ->
  String.eqb (String c EmptyString) (toUpperCase (String c EmptyString)) = true.
Proof. ascii_cases c. Qed.

Lemma lower_not_upper (c : ascii) : isLower c = true -> isUpper c = false.
Proof. ascii_cases c. Qed.

Lemma letters_app (a b : string) : letters (a ++ b) = letters a ++ letters b.
Proof. induction a as [|c a IH]; cbn; [reflexivity|now rewrite IH]. Qed.

Lemma formatCategory_fold_lower (key s acc : string) :
  forallb isLower (list_ascii_of_string s) = true ->
  fold_left (labelStep key) (letters s) acc = acc.
Proof.
  revert acc. induction s as [|c s IH]; intros acc Hs; [reflexivity|].
  cbn in Hs. apply andb_true_iff in Hs. destruct Hs as [Hc Hs].
  cbn [letters fold_left]. unfold labelStep at 2.
  rewrite (lower_not_own_upper c Hc). now apply IH.
Qed.

(** X10.  A key made of lowercase letters only is labelled by itself with
    its first letter in upper case. *)
Theorem formatCategory_lowercase (c : ascii) (rest : string) :
  forallb isLower (list_ascii_of_string (String c rest)) = true ->
  formatCategory (String c rest) = Ok (String (charToUpper c) rest).
Proof.
  intros Hlower. unfold formatCategory.
  change (fold_left _ (letters ?s) ?a)
    with (fold_left (labelStep (String c rest)) (letters s) a).
  rewrite (formatCategory_fold_lower (String c rest) _ _ Hlower).
  cbn [toUpperCase]. now rewrite replace_head.
Qed.

Lemma formatCategory_lowercase_witness :
  forallb isLower (list_ascii_of_string "animal") = true
  /\ formatCategory "animal" = Ok "Animal".
Proof.
  split; [reflexivity|].
  exact (formatCategory_lowercase "a" "nimal" eq_refl).
Defined.

Lemma splitCamelCase_lower (s t : string) :
  forallb isLower (list_ascii_of_string s) = true ->
  splitCamelCase (s ++ t) = (s ++ splitCamelCase t)%string.
Proof.
  induction s as [|c s IH]; intros Hs; [reflexivity|].
  cbn in Hs. apply andb_true_iff in Hs. destruct Hs as [Hc Hs].
  cbn. rewrite (lower_not_upper c Hc). now rewrite IH.
Qed.

Lemma append_empty_r (s : string) : (s ++ "")%string = s.
Proof. induction s as [|c s IH]; cbn; [reflexivity|now rewrite IH]. Qed.

(** X11.  A camelCase key of two words, lowercase letters with one
    uppercase letter after the first place, gets the label the words
    give: the first word capitalised, a space, and the second word in
    lower case. *)
Theorem formatCategory_two_words (c u : ascii) (first second : string) :
  forallb isLower (list_ascii_of_string (String c first)) = true ->
  isUpper u = true ->
  forallb isLower (list_ascii_of_string second) = true ->
  formatCategory (String c first ++ String u second)
  = Ok (String (charToUpper c) first
          ++ String " " (String (charToLower u) second))%string
  /\ specLabel (String c first ++ String u second)
     = (String (charToUpper c) first
          ++ String " " (String (charToLower u) second))%string.
Proof.
  intros Hfirst Hu Hsecond. split.
  - unfold formatCategory.
    change (fold_left _ (letters ?s) ?a)
      with (fold_left (labelStep (String c first ++ String u second))
                      (letters s) a).
    rewrite letters_app, fold_left_app.
    rewrite (formatCategory_fold_lower _ (String c first) _ Hfirst).
    cbn [letters fold_left].
    rewrite (formatCategory_fold_lower _ second _ Hsecond).
    unfold labelStep. rewrite (upper_own_upper u Hu).
    assert (Hrep :
      replace (String c first ++ String u second) (String u "")
              (" " ++ toLowerCase (String u ""))
      = String c (first ++ String " " (String (charToLower u) second))).
    { unfold replace. rewrite findFirst_skip.
      - cbn [toLowerCase append]. rewrite getSubstitution_space.
        now rewrite getSubstitution_single.
      - apply Forall_forall. intros x Hx ->.
        rewrite forallb_forall in Hfirst. specialize (Hfirst _ Hx).
        apply lower_not_upper in Hfirst. congruence. }
    rewrite Hrep. cbn [toUpperCase]. now rewrite replace_head.
  - unfold specLabel. rewrite (splitCamelCase_lower _ _ Hfirst).
    cbn [splitCamelCase]. rewrite Hu.
    rewrite <- (append_empty_r second) at 1.
    rewrite (splitCamelCase_lower second "" Hsecond).
    cbn [splitCamelCase append]. now rewrite append_empty_r.
Qed.

Lemma formatCategory_two_words_witness :
  formatCategory "pastFavorite" = Ok "Past favorite"
  /\ specLabel "pastFavorite" = "Past favorite".
Proof.
  exact (formatCategory_two_words "p" "F" "ast" "avorite"
           eq_refl eq_refl eq_refl).
Defined.

(** * Further properties of the record normaliser *)


Lemma getProperty_throws (v : value) (k : string) :
  getProperty v k = Throw TypeError <-> isNullish v = true.
Proof.
  destruct v; cbn; try (split; [discriminate|discriminate]);
    try (split; reflexivity).
  destruct (String.eqb k "length"); split; discriminate.
Qed.

Section Shape.
Variable key : obj string.


Lemma removeObjectsRow_throw_fold (object : row) (ks : list string)
    (acc : row) :
  fold_left
    (fun acc property =>
       newObject <- acc ;;
       if hasOwnProperty key property then
         let replacementProperty :=
           match lookup key property with
           | Some sub => sub
           | None => "undefined"
           end in
         v <- getProperty (get object property) replacementProperty ;;
         Ok (assign newObject property v)
       else Ok (assign newObject property (get object property)))
    ks (Ok acc) = Throw TypeError
  <-> exists p, In p ks /\ hasOwnProperty key p = true
                /\ isNullish (get object p) = true.
Proof.
  revert acc. induction ks as [|k ks IH]; intros acc; cbn [fold_left bind].
  - split; [discriminate|]. intros [p [[] _]].
  - destruct (hasOwnProperty key k) eqn:Ek.
    + destruct (getProperty (get object k) _) as [w|[]] eqn:Ew; cbn [bind].
      * rewrite IH. split.
        -- intros [p [Hp H]]. exists p. split; [now right|exact H].
        -- intros [p [[<- | Hp] [Hkp Hnull]]].
           ++ apply getProperty_throws with (k := match lookup key k with
                                                  | Some sub => sub
                                                  | None => "undefined"
                                                  end) in Hnull.
              congruence.
           ++ exists p. auto.
      * rewrite fold_left_Throw by reflexivity. split; [|reflexivity].
        intros _. exists k. split; [now left|]. split; [exact Ek|].
        eapply getProperty_throws. exact Ew.
    + rewrite IH. split.
      * intros [p [Hp H]]. exists p. split; [now right|exact H].
      * intros [p [[<- | Hp] [Hkp Hnull]]]; [congruence|]. exists p. auto.
Qed.
End Shape.



(** X13.  With a flatten map, a row fails to normalise exactly when a
    property that the map names holds [undefined] or [null]; a value that
    lacks the sub-property, or is no object at all, does not fail. *)
Theorem removeObjectsRow_throws (key : obj string) (object : row) :
  removeObjectsRow (Some key) object = Throw TypeError
  <-> exists p, hasOwnProperty object p = true
                /\ hasOwnProperty key p = true
                /\ isNullish (get object p) = true.
Proof.
  unfold removeObjectsRow. rewrite removeObjectsRow_throw_fold.
  split; intros [p [Hp H]]; exists p; (split; [|exact H]);
    now apply hasOwnProperty_In.
Qed.

(** * Further properties of the colour theme deriver *)

(** X14.  On a shorthand colour the pattern accepts, the loop of
    [customColorTheme] doubles each digit unless the first and the third
    digit are the same and the second is another: then, and only then,
    the expansion is not the doubled colour. *)
Theorem expandShorthand_correct_iff (x y z : ascii) :
  isAlnum x = true -> isAlnum y = true -> isAlnum z = true ->
  hexRegexTest (shorthand x y z) = true
  /\ (expandShorthand (shorthand x y z) = specExpand (shorthand x y z)
      <-> ~ (x = z /\ x <> y)).
Proof.
  intros Hx Hy Hz. split.
  - unfold hexRegexTest, shorthand. cbn. now rewrite Hx, Hy, Hz.
  - now apply expandShorthand_agrees_iff.
Qed.

Lemma expandShorthand_correct_iff_witness :
  isAlnum "a" = true /\ isAlnum "b" = true /\ isAlnum "c" = true
  /\ expandShorthand "#abc" = "#aabbcc".
Proof.
  split; [reflexivity|]. split; [reflexivity|]. split; [reflexivity|].
  apply (proj2 (proj2 (expandShorthand_correct_iff "a" "b" "c"
                         eq_refl eq_refl eq_refl))).
  intros [H _]. discriminate.
Defined.

Lemma allAscii_all (c : ascii) : In c allAscii.
Proof.
  unfold allAscii. rewrite <- (ascii_nat_embedding c).
  apply in_map. apply in_seq. pose proof (nat_ascii_bounded c). lia.
Qed.

Lemma channels_shorthand (x y z : ascii) :
  isHexDigit x = true -> isHexDigit y = true -> isHexDigit z = true ->
  let '(r, g, b) := channels (shorthand x y z) in
  isByte r && isByte g && isByte b = true.
Proof.
  intros Hx Hy Hz.
  assert (Hall :
    forallb (fun a => forallb (fun b => forallb (fun c =>
      let '(r, g, b) := channels (shorthand a b c) in
      isByte r && isByte g && isByte b)
      (filter isHexDigit allAscii)) (filter isHexDigit allAscii))
      (filter isHexDigit allAscii) = true) by (vm_compute; reflexivity).
  rewrite forallb_forall in Hall.
  specialize (Hall x ltac:(apply filter_In; split; [apply allAscii_all|exact Hx])).
  rewrite forallb_forall in Hall.
  specialize (Hall y ltac:(apply filter_In; split; [apply allAscii_all|exact Hy])).
  rewrite forallb_forall in Hall.
  exact (Hall z ltac:(apply filter_In; split; [apply allAscii_all|exact Hz])).
Qed.

Lemma parseInt16_hex_pair (a b : ascii) :
  isHexDigit a = true -> isHexDigit b = true ->
  isByte (parseInt16 (String a (String b EmptyString))) = true.
Proof.
  intros Ha Hb.
  assert (Hall :
    forallb (fun x => forallb (fun y =>
      isByte (parseInt16 (String x (String y EmptyString))))
      (filter isHexDigit allAscii)) (filter isHexDigit allAscii) = true)
    by (vm_compute; reflexivity).
  rewrite forallb_forall in Hall.
  specialize (Hall a ltac:(apply filter_In; split; [apply allAscii_all|exact Ha])).
  rewrite forallb_forall in Hall.
  exact (Hall b ltac:(apply filter_In; split; [apply allAscii_all|exact Hb])).
Qed.

Lemma hexRegexTest_shape (color : string) :
  hexRegexTest color = true ->
  (exists x y z, color = shorthand x y z)
  \/ (exists a b c d e f,
        color = String "#" (String a (String b (String c (String d
                  (String e (String f EmptyString))))))).
Proof.
  unfold hexRegexTest. destruct color as [|h rest]; [discriminate|].
  destruct (Ascii.eqb_spec h "#") as [->|Hh].
  - intros H. apply andb_true_iff in H. destruct H as [_ Hlen].
    destruct rest as [|a [|b [|c [|d [|e [|f [|g rest]]]]]]];
      cbn in Hlen; try discriminate.
    + left. now exists a, b, c.
    + right. now exists a, b, c, d, e, f.
  - intros H. exfalso. revert H Hh. ascii_cases h. congruence.
Qed.

Lemma channels_hex (color : string) :
  hexRegexTest color = true ->
  forallb isHexDigit (list_ascii_of_string (dropString 1 color)) = true ->
  let '(r, g, b) := channels color in
  isByte r && isByte g && isByte b = true.
Proof.
  intros Htest Hhex.
  destruct (hexRegexTest_shape color Htest)
    as [[x [y [z ->]]]|[a [b [c [d [e [f ->]]]]]]];
    cbn in Hhex; repeat (apply andb_true_iff in Hhex;
                         destruct Hhex as [? Hhex]).
  - now apply channels_shorthand.
  - unfold channels. rewrite expandShorthand_full by (cbn; lia).
    change (sliceString _ 1 3) with (String a (String b EmptyString)).
    change (sliceString _ 3 5) with (String c (String d EmptyString)).
    change (sliceString _ 5 7) with (String e (String f EmptyString)).
    now rewrite !parseInt16_hex_pair.
Qed.

Lemma findFirst_separator (digits rest : string) :
  forallb isDigit (list_ascii_of_string digits) = true ->
  findFirst ", " (digits ++ String "," (String " " rest))
  = Some (digits, rest).
Proof.
  induction digits as [|c digits IH]; intros Hd.
  - cbn. now rewrite prefix_empty.
  - cbn in Hd. apply andb_true_iff in Hd. destruct Hd as [Hc Hd].
    cbn [append findFirst String.prefix].
    destruct (ascii_dec "," c) as [<-|_]; [discriminate|].
    fold (findFirst ", " (digits ++ String "," (String " " rest))).
    now rewrite IH.
Qed.

Lemma stringOfZ_byte (z : Z) :
  0 <= z <= 255 -> isDecimal (stringOfZ z) = true.
Proof.
  intros Hz.
  assert (Hall : forallb (fun n => isDecimal (stringOfZ (Z.of_nat n)))
                         (seq 0 256) = true) by (vm_compute; reflexivity).
  rewrite forallb_forall in Hall.
  rewrite <- (Z2Nat.id z) by lia. apply Hall. apply in_seq. lia.
Qed.

Lemma wellFormedColor_rgba (r g b : number) (alpha : string) :
  isByte r && isByte g && isByte b = true ->
  alpha = "1" \/ alpha = "0.2" ->
  wellFormedColor (rgba r g b alpha) = true.
Proof.
  intros Hbytes Halpha.
  apply andb_true_iff in Hbytes. destruct Hbytes as [Hbytes Hb].
  apply andb_true_iff in Hbytes. destruct Hbytes as [Hr Hg].
  destruct r as [r|], g as [g|], b as [b|]; try discriminate.
  cbn in Hr, Hg, Hb.
  assert (Hdr := stringOfZ_byte r ltac:(lia)).
  assert (Hdg := stringOfZ_byte g ltac:(lia)).
  assert (Hdb := stringOfZ_byte b ltac:(lia)).
  unfold wellFormedColor, rgba, numberToString.
  cbn [append String.prefix dropString]. rewrite prefix_empty.
  repeat match goal with
         | |- context [ascii_dec ?x ?x] =>
             destruct (ascii_dec x x); [|congruence]
         end.
  cbn [andb].
  assert (Hsplit : forall d rest,
            isDecimal d = true ->
            splitOnce ", " (d ++ String "," (String " " rest)) = (d, rest)).
  { intros d rest Hd. unfold splitOnce. rewrite findFirst_separator;
      [reflexivity|]. unfold isDecimal in Hd.
    now apply andb_true_iff in Hd. }
  rewrite !Hsplit by assumption.
  rewrite Hdr, Hdg, Hdb. cbn [andb].
  destruct Halpha as [-> | ->]; reflexivity.
Qed.

(** X15.  A colour the pattern accepts and whose digits are all
    hexadecimal gives a theme of well-formed colours, with each channel a
    number from 0 to 255. *)
Theorem colorEffect_hexadecimal (theme : colorTheme) (color : string) :
  hexRegexTest color = true ->
  forallb isHexDigit (list_ascii_of_string (dropString 1 color)) = true ->
  (let '(r, g, b) := channels color in
   isByte r && isByte g && isByte b = true
   /\ bright (colorEffect theme (Some color)) = rgba r g b "1"
   /\ light (colorEffect theme (Some color)) = rgba r g b "0.2")
  /\ wellFormedColor (bright (colorEffect theme (Some color))) = true
  /\ wellFormedColor (light (colorEffect theme (Some color))) = true.
Proof.
  intros Htest Hhex. pose proof (channels_hex color Htest Hhex) as Hbytes.
  unfold colorEffect. rewrite Htest.
  unfold channels in *. unfold customColorTheme. cbn [bright light].
  split; [split; [exact Hbytes|split; reflexivity]|].
  split; apply wellFormedColor_rgba; auto.
Qed.

Lemma colorEffect_hexadecimal_witness :
  hexRegexTest "#0da371" = true
  /\ forallb isHexDigit (list_ascii_of_string "0da371") = true
  /\ wellFormedColor (bright (colorEffect defaultColorTheme (Some "#0da371")))
     = true.
Proof.
  split; [reflexivity|]. split; [reflexivity|].
  exact (proj1 (proj2 (colorEffect_hexadecimal defaultColorTheme "#0da371"
                         eq_refl eq_refl))).
Defined.

Lemma relativeLuminance_nan (r g b : number) :
  r = None \/ g = None \/ b = None ->
  relativeLuminance r g b = S754_nan.
Proof.
  unfold relativeLuminance, fdiv, fadd, fmul.
  intros [-> | [-> | ->]]; cbn [floatOfNumber].
  - destruct (SFmul prec emax (decimalLiteral 7152 10000) (floatOfNumber g));
      destruct (SFmul prec emax (decimalLiteral 722 10000) (floatOfNumber b));
      reflexivity.
  - destruct (SFmul prec emax (decimalLiteral 2126 10000) (floatOfNumber r));
      destruct (SFmul prec emax (decimalLiteral 722 10000) (floatOfNumber b));
      reflexivity.
  - destruct (SFadd prec emax
                (SFmul prec emax (decimalLiteral 2126 10000) (floatOfNumber r))
                (SFmul prec emax (decimalLiteral 7152 10000) (floatOfNumber g)));
      reflexivity.
Qed.

(** X16.  When a channel of an accepted colour does not parse, the text
    of the theme is white, whatever the other channels are. *)
Theorem customColorTheme_nan_white (hex : string) :
  (let '(r, g, b) := channels hex in r = None \/ g = None \/ b = None) ->
  text (customColorTheme hex) = "white".
Proof.
  unfold channels, customColorTheme. cbn [text]. intros Hnan.
  now rewrite relativeLuminance_nan by exact Hnan.
Qed.

Lemma customColorTheme_nan_white_witness :
  text (customColorTheme "#ffzzff") = "white".
Proof.
  apply customColorTheme_nan_white. vm_compute. right. left. reflexivity.
Defined.

(** * Further properties of the sort engine *)

Lemma keys_resetSorting (sorting : sortingState) :
  keys (resetSorting sorting) = keys sorting.
Proof.
  unfold keys, resetSorting. rewrite map_map. apply map_ext.
  now intros [k o].
Qed.

Lemma keys_assign_present {V} (o : obj V) (k : string) (v : V) :
  hasOwnProperty o k = true -> keys (assign o k v) = keys o.
Proof.
  induction o as [|[k' v'] o IH]; cbn; [discriminate|].
  destruct (String.eqb_spec k' k) as [->|Hne]; cbn; [reflexivity|].
  intros H. f_equal. now apply IH.
Qed.

Lemma toggleSortOrder_assign (sorting : sortingState) (category : string) :
  exists order,
    (order = Ascending \/ order = Descending)
    /\ toggleSortOrder sorting category
       = assign (resetSorting sorting) category order.
Proof.
  unfold toggleSortOrder. fold (resetSorting sorting).
  destruct (_ || _); eexists; split; try reflexivity; auto.
Qed.

Lemma activeCategory_toggle (sorting : sortingState) (category : string) :
  activeCategory (toggleSortOrder sorting category) = Some category.
Proof.
  destruct (toggleSortOrder_assign sorting category) as [order [Horder Heq]].
  apply (activeCategory_unique _ _ order).
  - rewrite Heq. apply lookup_assign_same.
  - destruct Horder as [-> | ->]; discriminate.
  - intros k o Hl Ho.
    destruct (String.eqb_spec k category) as [Heqk|Hne]; [exact Heqk|].
    rewrite toggleSortOrder_other in Hl by exact Hne.
    destruct (lookup sorting k); cbn in Hl; congruence.
Qed.

Section SortTotal.
Context {A : Type} (cmp : A -> A -> result Z) (good : A -> Prop).
Hypothesis cmp_good : forall a b, good a -> good b -> exists c, cmp a b = Ok c.

Lemma insertM_total (x : A) (l : list A) :
  good x -> Forall good l -> exists s, insertM cmp x l = Ok s.
Proof.
  intros Hx. induction 1 as [|y l Hy Hl IH]; cbn.
  - eexists; reflexivity.
  - destruct (cmp_good x y Hx Hy) as [c ->]. cbn.
    destruct (c <=? 0); [eexists; reflexivity|].
    destruct IH as [s ->]. cbn. eexists; reflexivity.
Qed.

Lemma sortM_total (l : list A) :
  Forall good l -> exists s, sortM cmp l = Ok s.
Proof.
  induction 1 as [|x l Hx Hl IH]; cbn.
  - eexists; reflexivity.
  - destruct IH as [s Hs]. rewrite Hs. cbn. apply insertM_total; [exact Hx|].
    apply sortM_perm in Hs. eapply Permutation_Forall; eassumption.
Qed.
End SortTotal.

Section SortResults.
Context `{Collator}.

Lemma compareRows_direction (sorting : sortingState) (category : string)
    (toggleOrder : bool) (a b : row) :
  compareRows sorting category toggleOrder a b
  = compareIn (directionOf sorting category toggleOrder) category a b.
Proof.
  unfold compareRows, directionOf, comparesAscending, compareIn.
  now destruct (_ || _).
Qed.

Lemma compareIn_strings (order : sortOrder) (category : string) (a b : row) :
  isStringValue (get a category) = true ->
  isStringValue (get b category) = true ->
  exists c, compareIn order category a b = Ok c.
Proof.
  intros Ha Hb. unfold compareIn.
  destruct (get a category); try discriminate.
  destruct (get b category); try discriminate.
  destruct order; cbn; eexists; reflexivity.
Qed.
End SortResults.

(** X17.  On rows that all hold a string in the sort column, sorting does
    not fail: it returns the same rows, each before the ones that follow
    it in the direction the comparator takes. *)
Theorem sortContent_strings `{Collator} `{!CollatorLaws}
    (sorting : sortingState) (content : list row) (category : string)
    (toggleOrder : bool) :
  Forall (fun r => isStringValue (get r category) = true) content ->
  exists sorted,
    sortContent sorting content category toggleOrder = Ok sorted
    /\ Permutation content sorted
    /\ StronglySorted
         (inOrder (directionOf sorting category toggleOrder) category) sorted.
Proof.
  intros Hrows. unfold sortContent.
  rewrite (sortM_ext _ _ _ (compareRows_direction sorting category toggleOrder)).
  destruct (sortM_total
              (compareIn (directionOf sorting category toggleOrder) category)
              _ (compareIn_strings _ category) content Hrows)
    as [sorted Hs].
  exists sorted. split; [exact Hs|]. now apply sortM_compareIn.
Qed.

Lemma sortContent_strings_witness :
  exists sorted,
    sortContent (nameSorting Ascending)
      [person "Bob" "paris"; person "alice" "Oslo"; person "Carl" "oslo"]
      "name" true = Ok sorted
    /\ Permutation
         [person "Bob" "paris"; person "alice" "Oslo"; person "Carl" "oslo"]
         sorted.
Proof.
  destruct (sortContent_strings (nameSorting Ascending)
              [person "Bob" "paris"; person "alice" "Oslo"; person "Carl" "oslo"]
              "name" true) as [sorted [Hs [Hp _]]].
  - repeat constructor.
  - exists sorted. split; assumption.
Defined.

(** X18.  A click on the header of a column of the sort state, when the
    sort succeeds: the rows are the same rows sorted in the next
    direction of the column's cycle, and that direction is the one the
    new state records, for the column that is now the active one. *)
Theorem sortClick_result `{Collator} `{!CollatorLaws}
    (sorting sorting' : sortingState) (filteredContent sorted : list row)
    (category : string) (order : sortOrder) :
  lookup sorting category = Some order ->
  sortClick sorting filteredContent category = Ok (sorted, sorting') ->
  lookup sorting' category = Some (nextOrder order)
  /\ activeCategory sorting' = Some category
  /\ Permutation filteredContent sorted
  /\ StronglySorted (inOrder (nextOrder order) category) sorted.
Proof.
  intros Hl Hclick. unfold sortClick, sortContent in Hclick.
  destruct (sortM _ filteredContent) as [s|e] eqn:Es; [|discriminate].
  cbn in Hclick. injection Hclick as <- <-.
  split; [now apply toggleSortOrder_same|].
  split; [apply activeCategory_toggle|].
  rewrite (sortM_ext _ (compareIn (nextOrder order) category)) in Es
    by (intros a b; now apply compareRows_click).
  now apply sortM_compareIn.
Qed.

Lemma sortClick_result_witness :
  lookup (nameSorting Ascending) "name" = Some Ascending
  /\ sortClick (nameSorting Ascending)
        [person "alice" "Oslo"; person "Bob" "paris"] "name"
      = Ok ([person "Bob" "paris"; person "alice" "Oslo"],
            nameSorting Descending)
  /\ activeCategory (nameSorting Descending) = Some "name".
Proof.
  split; [reflexivity|]. split; [reflexivity|].
  exact (proj1 (proj2 (sortClick_result (nameSorting Ascending)
                         (nameSorting Descending)
                         [person "alice" "Oslo"; person "Bob" "paris"]
                         [person "Bob" "paris"; person "alice" "Oslo"]
                         "name" Ascending eq_refl eq_refl))).
Defined.

(** X19.  Toggling a column of the sort state keeps the columns and
    their order; toggling an ordinary key that is not a column adds it at
    the end, as descending. *)
Theorem toggleSortOrder_keys (sorting : sortingState) (category : string) :
  (hasOwnProperty sorting category = true ->
   keys (toggleSortOrder sorting category) = keys sorting)
  /\ (hasOwnProperty sorting category = false ->
      ordinaryKey category = true ->
      toggleSortOrder sorting category
      = resetSorting sorting ++ [(category, Descending)]).
Proof.
  split.
  - intros Hown.
    destruct (toggleSortOrder_assign sorting category) as [order [_ ->]].
    rewrite keys_assign_present, keys_resetSorting; [reflexivity|].
    rewrite lookup_hasOwnProperty in *. unfold resetSorting.
    rewrite lookup_reset. now destruct (lookup sorting category).
  - intros Hown _.
    unfold toggleSortOrder, orderIs. fold (resetSorting sorting).
    rewrite lookup_hasOwnProperty in Hown.
    destruct (lookup sorting category) eqn:El; [discriminate|]. cbn.
    apply assign_fresh. rewrite lookup_hasOwnProperty. unfold resetSorting.
    rewrite lookup_reset, El. reflexivity.
Qed.

Lemma toggleSortOrder_keys_witness :
  hasOwnProperty (nameSorting Ascending) "zip" = false
  /\ ordinaryKey "zip" = true
  /\ toggleSortOrder (nameSorting Ascending) "zip"
     = [("name", SortNone); ("city", SortNone); ("zip", Descending)].
Proof.
  split; [reflexivity|]. split; [reflexivity|].
  exact (proj2 (toggleSortOrder_keys (nameSorting Ascending) "zip")
               eq_refl eq_refl).
Defined.

(** X20.  Turning to another column starts it ascending and puts the
    column that was active back to none, whatever its direction was. *)
Theorem toggleSortOrder_switch (sorting : sortingState) (a b : string) :
  a <> b ->
  hasOwnProperty sorting a = true ->
  hasOwnProperty sorting b = true ->
  lookup (toggleSortOrder (toggleSortOrder sorting a) b) b = Some Ascending
  /\ lookup (toggleSortOrder (toggleSortOrder sorting a) b) a = Some SortNone.
Proof.
  intros Hne Ha Hb.
  rewrite lookup_hasOwnProperty in Ha, Hb.
  destruct (lookup sorting a) as [oa|] eqn:Ea; [|discriminate].
  destruct (lookup sorting b) as [ob|] eqn:Eb; [|discriminate].
  assert (Hb1 : lookup (toggleSortOrder sorting a) b = Some SortNone).
  { rewrite toggleSortOrder_other by congruence. now rewrite Eb. }
  assert (Ha1 : lookup (toggleSortOrder sorting a) a = Some (nextOrder oa))
    by now apply toggleSortOrder_same.
  split.
  - now rewrite (toggleSortOrder_same _ _ _ Hb1).
  - rewrite toggleSortOrder_other by exact Hne. now rewrite Ha1.
Qed.

Lemma toggleSortOrder_switch_witness :
  "name" <> "city"
  /\ lookup (toggleSortOrder (toggleSortOrder (nameSorting Descending) "name")
                             "city") "city" = Some Ascending.
Proof.
  split; [discriminate|].
  exact (proj1 (toggleSortOrder_switch (nameSorting Descending) "name" "city"
                  ltac:(discriminate) eq_refl eq_refl)).
Defined.

Lemma initialSorting_fold (categories : list string) (s0 : sortingState) :
  NoDup (keys s0 ++ categories) ->
  fold_left (fun initSorting category => assign initSorting category SortNone)
            categories s0
  = s0 ++ map (fun k => (k, SortNone)) categories.
Proof.
  revert s0. induction categories as [|k categories IH]; intros s0 Hnd.
  - cbn. now rewrite app_nil_r.
  - cbn [fold_left map].
    assert (Hfresh : hasOwnProperty s0 k = false).
    { destruct (hasOwnProperty s0 k) eqn:E; [|reflexivity].
      apply hasOwnProperty_In in E. exfalso.
      apply NoDup_remove_2 in Hnd. apply Hnd. apply in_or_app. now left. }
    rewrite (assign_fresh _ _ _ Hfresh), IH.
    + now rewrite <- app_assoc.
    + unfold keys. rewrite map_app. cbn. now rewrite <- app_assoc.
Qed.

Lemma lookup_all_none (categories : list string) (k : string) (o : sortOrder) :
  lookup (map (fun k => (k, SortNone)) categories) k = Some o -> o = SortNone.
Proof.
  induction categories as [|c categories IH]; cbn; [discriminate|].
  destruct (String.eqb c k); [now intros [= <-]|exact IH].
Qed.

(** X21.  From the sort state [defineCategories] sets for distinct
    columns with ordinary keys, every sequence of header clicks leads to a
    sort state that holds the same columns in the same order and in which
    at most one column is not none. *)
Theorem sortingReachable_invariant (categories : list string)
    (sorting : sortingState) :
  NoDup categories ->
  forallb ordinaryKey categories = true ->
  sortingReachable categories sorting ->
  keys sorting = categories
  /\ forall k1 o1 k2 o2,
       lookup sorting k1 = Some o1 -> o1 <> SortNone ->
       lookup sorting k2 = Some o2 -> o2 <> SortNone ->
       k1 = k2.
Proof.
  intros Hnd _. induction 1 as [|sorting category _ [Hkeys _] Hin].
  - unfold initialSorting. rewrite initialSorting_fold by exact Hnd.
    cbn [app]. split.
    + unfold keys. rewrite map_map. cbn. apply map_id.
    + intros k1 o1 k2 o2 H1 Hn1. apply lookup_all_none in H1. congruence.
  - split.
    + rewrite <- Hkeys in Hin. apply hasOwnProperty_In in Hin.
      destruct (toggleSortOrder_assign sorting category) as [order [_ ->]].
      rewrite keys_assign_present, keys_resetSorting; [exact Hkeys|].
      rewrite lookup_hasOwnProperty in *. unfold resetSorting.
      rewrite lookup_reset. now destruct (lookup sorting category).
    + assert (Hone : forall k o,
                lookup (toggleSortOrder sorting category) k = Some o ->
                o <> SortNone -> k = category).
      { intros k o Hl Ho.
        destruct (String.eqb_spec k category) as [Heq|Hne]; [exact Heq|].
        rewrite toggleSortOrder_other in Hl by exact Hne.
        destruct (lookup sorting k); cbn in Hl; congruence. }
      intros k1 o1 k2 o2 H1 Hn1 H2 Hn2.
      rewrite (Hone _ _ H1 Hn1), (Hone _ _ H2 Hn2). reflexivity.
Qed.

Lemma sortingReachable_invariant_witness :
  NoDup ["name"; "city"]
  /\ forallb ordinaryKey ["name"; "city"] = true
  /\ keys (toggleSortOrder
             (toggleSortOrder (initialSorting ["name"; "city"]) "city") "name")
     = ["name"; "city"].
Proof.
  assert (Hnd : NoDup ["name"; "city"]).
  { repeat constructor; cbn; intuition discriminate. }
  split; [exact Hnd|]. split; [reflexivity|].
  apply (sortingReachable_invariant ["name"; "city"] _ Hnd eq_refl).
  apply reachToggle; [apply reachToggle; [apply reachInitialSorting|]|];
    cbn; auto.
Defined.

(** * Further properties of the filter engine *)

Lemma prefix_spec (a s : string) :
  String.prefix a s = true <-> exists post, s = (a ++ post)%string.
Proof.
  revert s. induction a as [|c a IH]; intros s.
  - rewrite prefix_empty. split; [intros _; now exists s|reflexivity].
  - destruct s as [|d s]; cbn.
    + split; [discriminate|]. intros [post Hp]. discriminate.
    + destruct (ascii_dec c d) as [->|Hne].
      * rewrite IH. split; intros [post Hp]; exists post; congruence.
      * split; [discriminate|]. intros [post Hp]. congruence.
Qed.

(** [includes] is the substring test. *)
Lemma includes_spec (s sub : string) :
  includes s sub = true
  <-> exists pre post, s = (pre ++ sub ++ post)%string.
Proof.
  induction s as [|c s IH]; cbn [includes].
  - rewrite orb_false_r, prefix_spec. split.
    + intros [post Hp]. now exists EmptyString, post.
    + intros [pre [post Hp]]. destruct pre; [now exists post|discriminate].
  - rewrite orb_true_iff, prefix_spec, IH. split.
    + intros [[post Hp]|[pre [post Hp]]].
      * now exists EmptyString, post.
      * exists (String c pre), post. cbn. now rewrite Hp.
    + intros [[|d pre] [post Hp]].
      * left. now exists post.
      * right. cbn in Hp. injection Hp as -> ->. now exists pre, post.
Qed.

Lemma append_assoc (a b c : string) :
  ((a ++ b) ++ c = a ++ (b ++ c))%string.
Proof. induction a as [|x a IH]; cbn; [reflexivity|now rewrite IH]. Qed.

Lemma includes_trans (s t u : string) :
  includes s t = true -> includes t u = true -> includes s u = true.
Proof.
  rewrite !includes_spec. intros [pre [post ->]] [pre' [post' ->]].
  exists (pre ++ pre')%string, (post' ++ post)%string.
  now rewrite !append_assoc.
Qed.

Lemma toLowerCase_toUpperCase (s : string) :
  toLowerCase (toUpperCase s) = toLowerCase s.
Proof.
  induction s as [|c s IH]; cbn; [reflexivity|]. rewrite IH. f_equal.
  ascii_cases c.
Qed.

Lemma rowMatches_values (query : string) (vs : list value) :
  forallb isStringValue vs = true ->
  exists bs,
    mapM (fun v => lowered <- toLowerCaseOf v ;;
                   Ok (includes lowered (toLowerCase query))) vs = Ok bs
    /\ existsb (Bool.eqb true) bs
       = existsb (fun v => match v with
                           | VStr s =>
                               includes (toLowerCase s) (toLowerCase query)
                           | _ => false
                           end) vs.
Proof.
  induction vs as [|v vs IH]; intros Hvs.
  - exists []. split; reflexivity.
  - cbn in Hvs. apply andb_true_iff in Hvs. destruct Hvs as [Hv Hvs].
    destruct (IH Hvs) as [bs [Hmap Hex]].
    destruct v; try discriminate. cbn. rewrite Hmap. cbn.
    eexists. split; [reflexivity|]. cbn. rewrite Hex.
    now destruct (includes _ _).
Qed.

Lemma rowMatches_strings (query : string) (r : row) :
  allStrings r = true -> rowMatches query r = Ok (matchesQuery query r).
Proof.
  unfold allStrings, rowMatches, matchesQuery. intros Hr.
  destruct (rowMatches_values query (values r) Hr) as [bs [-> Hex]].
  cbn [bind]. now rewrite Hex.
Qed.

Lemma rowMatches_throws (query : string) (r : row) :
  rowMatches query r = Throw TypeError <-> allStrings r = false.
Proof.
  destruct (allStrings r) eqn:Er.
  - rewrite rowMatches_strings by exact Er. split; discriminate.
  - split; [reflexivity|]. intros _. unfold allStrings, rowMatches in *.
    induction (values r) as [|v vs IH]; [discriminate|].
    cbn in Er. destruct v; cbn; try reflexivity.
    cbn in Er. specialize (IH Er).
    destruct (mapM _ vs) as [bs|[]]; [discriminate|reflexivity].
Qed.

Lemma filterM_strings (query : string) (content : list row) :
  forallb allStrings content = true ->
  filterM (rowMatches query) content = Ok (filter (matchesQuery query) content).
Proof.
  induction content as [|r content IH]; [reflexivity|]. cbn.
  intros Hall. apply andb_true_iff in Hall. destruct Hall as [Hr Hall].
  rewrite rowMatches_strings by exact Hr. cbn. rewrite IH by exact Hall.
  reflexivity.
Qed.

Lemma filterM_throws (query : string) (content : list row) :
  filterM (rowMatches query) content = Throw TypeError
  <-> forallb allStrings content = false.
Proof.
  induction content as [|r content IH]; cbn; [split; discriminate|].
  destruct (allStrings r) eqn:Er.
  - rewrite rowMatches_strings by exact Er. cbn.
    destruct (filterM (rowMatches query) content) as [l|[]]; cbn.
    + rewrite <- IH. split; discriminate.
    + rewrite <- IH. split; reflexivity.
  - apply rowMatches_throws with (query := query) in Er. rewrite Er.
    split; reflexivity.
Qed.

(** X23.  With no active sort, filtering rows whose values are all
    strings never fails, whatever the query: it returns, in their order,
    exactly the rows of which some value contains the query, case
    ignored. *)
Theorem filterContent_strings `{Collator} (sorting : sortingState)
    (query : string) (content : list row) :
  activeCategory sorting = None ->
  forallb allStrings content = true ->
  filterContent sorting query content
  = Ok (filter (matchesQuery query) content).
Proof.
  intros Hnone Hall. unfold filterContent.
  rewrite filterM_strings by exact Hall. cbn [bind]. now rewrite Hnone.
Qed.

Lemma filterContent_strings_witness :
  activeCategory (nameSorting SortNone) = None
  /\ filterContent (nameSorting SortNone) "MAN"
       [ [("animal", VStr "Manatee")]; [("animal", VStr "deer")];
         [("animal", VStr "salamander")] ]
     = Ok [ [("animal", VStr "Manatee")]; [("animal", VStr "salamander")] ].
Proof.
  split; [reflexivity|].
  exact (filterContent_strings (nameSorting SortNone) "MAN"
           [ [("animal", VStr "Manatee")]; [("animal", VStr "deer")];
             [("animal", VStr "salamander")] ] eq_refl eq_refl).
Defined.

(** X24.  Filtering fails with a [TypeError] as soon as one row of the
    collection holds a value that is not a string, whether or not that
    row would match and whatever the sort state; with no active sort these
    are the only failures. *)
Theorem filterContent_throws `{Collator} (sorting : sortingState)
    (query : string) (content : list row) :
  (forallb allStrings content = false ->
   filterContent sorting query content = Throw TypeError)
  /\ (activeCategory sorting = None ->
      filterContent sorting query content = Throw TypeError ->
      forallb allStrings content = false).
Proof.
  split.
  - intros Hbad. unfold filterContent.
    now rewrite (proj2 (filterM_throws query content) Hbad).
  - intros Hnone Hthrow. unfold filterContent in Hthrow.
    rewrite Hnone in Hthrow.
    destruct (filterM (rowMatches query) content) as [l|[]] eqn:Ef;
      [discriminate|].
    now apply filterM_throws in Ef.
Qed.

Lemma filterContent_throws_witness :
  forallb allStrings [person "Bob" "paris"; [("name", VStr "Al"); ("age", VNum 7)]]
  = false
  /\ filterContent (nameSorting SortNone) "bob"
       [person "Bob" "paris"; [("name", VStr "Al"); ("age", VNum 7)]]
     = Throw TypeError.
Proof.
  split; [reflexivity|].
  exact (proj1 (filterContent_throws (nameSorting SortNone) "bob"
                  [person "Bob" "paris"; [("name", VStr "Al"); ("age", VNum 7)]])
               eq_refl).
Defined.

Lemma matchesQuery_substring (query : string) (r : row) :
  matchesQuery query r = true
  <-> exists k s pre post,
        In (k, VStr s) r
        /\ toLowerCase s = (pre ++ toLowerCase query ++ post)%string.
Proof.
  unfold matchesQuery, values. rewrite existsb_exists. split.
  - intros [v [Hin Hv]]. apply in_map_iff in Hin.
    destruct Hin as [[k v'] [Hsnd Hin]]. cbn in Hsnd. subst v'.
    destruct v; try discriminate.
    apply includes_spec in Hv. destruct Hv as [pre [post Hv]].
    now exists k, s, pre, post.
  - intros [k [s [pre [post [Hin Hs]]]]]. exists (VStr s). split.
    + apply in_map_iff. now exists (k, VStr s).
    + apply includes_spec. now exists pre, post.
Qed.

(** X25.  A row of strings passes the filter exactly when one of its
    values, in lower case, has the query in lower case as a substring. *)
Theorem rowMatches_substring (query : string) (r : row) :
  allStrings r = true ->
  (rowMatches query r = Ok true
   <-> exists k s pre post,
         In (k, VStr s) r
         /\ toLowerCase s = (pre ++ toLowerCase query ++ post)%string).
Proof.
  intros Hr. rewrite rowMatches_strings by exact Hr.
  rewrite <- matchesQuery_substring. split; [now intros [= ->]|now intros ->].
Qed.

Lemma rowMatches_substring_witness :
  allStrings (person "Bob" "Paris") = true
  /\ rowMatches "ARI" (person "Bob" "Paris") = Ok true.
Proof.
  split; [reflexivity|].
  apply (proj2 (rowMatches_substring "ARI" (person "Bob" "Paris") eq_refl)).
  exists "city", "Paris", "p", "s". split; [cbn; auto|reflexivity].
Defined.

Lemma matchesQuery_narrowing (shorter longer : string) (r : row) :
  includes (toLowerCase longer) (toLowerCase shorter) = true ->
  matchesQuery longer r = true -> matchesQuery shorter r = true.
Proof.
  intros Hsub. unfold matchesQuery. rewrite !existsb_exists.
  intros [v [Hin Hv]]. exists v. split; [exact Hin|].
  destruct v; try discriminate. eapply includes_trans; eassumption.
Qed.

Lemma filterContent_found `{Collator} (sorting : sortingState)
    (query : string) (content found : list row) :
  filterContent sorting query content = Ok found ->
  forall r, In r found <-> In r (filter (matchesQuery query) content).
Proof.
  intros Hf r. unfold filterContent in Hf.
  destruct (filterM (rowMatches query) content) as [l|e] eqn:El;
    [|discriminate].
  assert (Hall : forallb allStrings content = true).
  { destruct (forallb allStrings content) eqn:E; [reflexivity|].
    apply filterM_throws with (query := query) in E. congruence. }
  rewrite filterM_strings in El by exact Hall. injection El as <-.
  cbn [bind] in Hf. destruct (activeCategory sorting) as [category|].
  - unfold sortContent in Hf. apply sortM_perm in Hf.
    split; intros Hin.
    + eapply Permutation_in; [symmetry; exact Hf|exact Hin].
    + eapply Permutation_in; [exact Hf|exact Hin].
  - injection Hf as <-. reflexivity.
Qed.

(** X26.  Typing more never brings rows back: when a query is contained
    in a longer one, case ignored, every row found for the longer query
    is among the rows found for the shorter one, whatever the sort
    state. *)
Theorem filterContent_narrowing `{Collator} (sorting : sortingState)
    (shorter longer : string) (content found found' : list row) :
  includes (toLowerCase longer) (toLowerCase shorter) = true ->
  filterContent sorting longer content = Ok found ->
  filterContent sorting shorter content = Ok found' ->
  incl found found'.
Proof.
  intros Hsub Hlong Hshort r Hr.
  apply (filterContent_found _ _ _ _ Hshort).
  apply (filterContent_found _ _ _ _ Hlong) in Hr.
  apply filter_In in Hr. destruct Hr as [Hin Hm].
  apply filter_In. split; [exact Hin|].
  eapply matchesQuery_narrowing; eassumption.
Qed.

Lemma filterContent_narrowing_witness :
  includes (toLowerCase "Mana") (toLowerCase "man") = true
  /\ incl [ [("animal", VStr "Manatee")] ]
          [ [("animal", VStr "human")]; [("animal", VStr "Manatee")] ].
Proof.
  split; [reflexivity|].
  exact (filterContent_narrowing
           [("animal", Ascending)] "man" "Mana"
           [ [("animal", VStr "Manatee")]; [("animal", VStr "human")] ]
           [ [("animal", VStr "Manatee")] ]
           [ [("animal", VStr "human")]; [("animal", VStr "Manatee")] ]
           eq_refl eq_refl eq_refl).
Defined.

(** X27.  The case of an ASCII query does not matter: the query in upper
    case finds what the query finds, and fails where it fails. *)
Theorem filterContent_query_case `{Collator} (sorting : sortingState)
    (query : string) (content : list row) :
  isAsciiString query = true ->
  filterContent sorting (toUpperCase query) content
  = filterContent sorting query content.
Proof.
  intros _. unfold filterContent.
  assert (Hrow : forall r, rowMatches (toUpperCase query) r
                           = rowMatches query r).
  { intros r. unfold rowMatches. now rewrite toLowerCase_toUpperCase. }
  assert (Hfilter : filterM (rowMatches (toUpperCase query)) content
                    = filterM (rowMatches query) content).
  { induction content as [|r content IH]; [reflexivity|].
    cbn. now rewrite Hrow, IH. }
  now rewrite Hfilter.
Qed.

Lemma filterContent_query_case_witness :
  isAsciiString "man" = true
  /\ filterContent (nameSorting SortNone) "MAN"
       [ [("animal", VStr "Manatee")]; [("animal", VStr "deer")] ]
     = filterContent (nameSorting SortNone) "man"
         [ [("animal", VStr "Manatee")]; [("animal", VStr "deer")] ].
Proof.
  split; [reflexivity|].
  exact (filterContent_query_case (nameSorting SortNone) "man"
           [ [("animal", VStr "Manatee")]; [("animal", VStr "deer")] ]
           eq_refl).
Defined.

(** * The filter with an active sort *)

Lemma allStrings_get (r : row) (category : string) :
  allStrings r = true -> hasOwnProperty r category = true ->
  isStringValue (get r category) = true.
Proof.
  unfold allStrings, values, get.
  induction r as [|[k v] r IH]; cbn; [discriminate|].
  intros Hall Hown. apply andb_true_iff in Hall. destruct Hall as [Hv Hall].
  destruct (String.eqb k category); [exact Hv|now apply IH].
Qed.

(** The active column is a column of the sort state, and its direction is
    ascending or descending. *)
Lemma activeCategory_lookup (sorting : sortingState) (category : string) :
  activeCategory sorting = Some category ->
  exists order,
    lookup sorting category = Some order
    /\ (order = Ascending \/ order = Descending).
Proof.
  intros Hactive. pose proof (activeCategory_order _ _ Hactive) as Hne.
  unfold activeCategory in Hactive.
  destruct (find _ sorting) as [[k o]|] eqn:Ef; [|discriminate].
  injection Hactive as ->. apply find_some in Ef. destruct Ef as [Hin _].
  apply lookup_In_key in Hin. unfold orderIs in Hne.
  destruct (lookup sorting category) as [order|]; [|congruence].
  exists order. split; [reflexivity|].
  destruct order; [discriminate|now left|now right].
Qed.

(** On rows of strings of which those that pass the query have the active
    column, neither the filter nor the sort throws. *)
Lemma filterContent_active_rows `{Collator} `{!CollatorLaws}
    (sorting : sortingState) (query : string) (content : list row)
    (category : string) (order : sortOrder) :
  activeCategory sorting = Some category ->
  lookup sorting category = Some order ->
  forallb allStrings content = true ->
  forallb (fun r => hasOwnProperty r category)
          (filter (matchesQuery query) content) = true ->
  exists sorted,
    filterContent sorting query content = Ok sorted
    /\ Permutation (filter (matchesQuery query) content) sorted
    /\ StronglySorted (inOrder order category) sorted.
Proof.
  intros Hactive Hl Hall Hcol.
  destruct (filterContent_active_sort sorting query content category order
              Hactive Hl) as [_ [Heq _]].
  rewrite filterM_strings in Heq by exact Hall. cbn [bind] in Heq.
  destruct (sortM_total (compareIn order category)
              (fun r => isStringValue (get r category) = true)
              (compareIn_strings order category)
              (filter (matchesQuery query) content)) as [sorted Hs].
  - apply Forall_forall. intros r Hr.
    rewrite forallb_forall in Hall, Hcol.
    apply allStrings_get; [|now apply Hcol].
    apply Hall. apply filter_In in Hr. tauto.
  - exists sorted. split; [now rewrite Heq|]. now apply sortM_compareIn.
Qed.

Lemma matchesQuery_empty_query (r : row) :
  stringRow r = true -> matchesQuery "" r = true.
Proof.
  intros Hr. pose proof (rowMatches_empty_query r Hr) as Hpass.
  rewrite rowMatches_strings in Hpass; [congruence|].
  unfold stringRow in Hr. apply andb_true_iff in Hr. exact (proj2 Hr).
Qed.

Lemma filter_empty_query (content : list row) :
  forallb stringRow content = true ->
  filter (matchesQuery "") content = content.
Proof.
  induction content as [|r content IH]; [reflexivity|]. cbn.
  intros Hrows. apply andb_true_iff in Hrows. destruct Hrows as [Hr Hrows].
  now rewrite matchesQuery_empty_query, IH.
Qed.

Lemma stringRows_allStrings (content : list row) :
  forallb stringRow content = true -> forallb allStrings content = true.
Proof.
  rewrite !forallb_forall. intros Hrows r Hr. specialize (Hrows r Hr).
  unfold stringRow in Hrows. apply andb_true_iff in Hrows.
  exact (proj2 Hrows).
Qed.

(** X22.  After a click on the header of a column of the sort state,
    filtering rows of strings of which those that pass the query have the
    column does not fail: it returns the rows that pass, sorted by that
    column in the direction the click moved it to. *)
Theorem filterContent_after_toggle `{Collator} `{!CollatorLaws}
    (sorting : sortingState) (category : string) (order : sortOrder)
    (query : string) (content : list row) :
  lookup sorting category = Some order ->
  forallb allStrings content = true ->
  forallb (fun r => hasOwnProperty r category)
          (filter (matchesQuery query) content) = true ->
  exists sorted,
    filterContent (toggleSortOrder sorting category) query content = Ok sorted
    /\ Permutation (filter (matchesQuery query) content) sorted
    /\ StronglySorted (inOrder (nextOrder order) category) sorted.
Proof.
  intros Hl Hall Hcol.
  apply filterContent_active_rows.
  - apply activeCategory_toggle.
  - now apply toggleSortOrder_same.
  - exact Hall.
  - exact Hcol.
Qed.

Lemma filterContent_after_toggle_witness :
  lookup (nameSorting SortNone) "name" = Some SortNone
  /\ exists sorted,
       filterContent (toggleSortOrder (nameSorting SortNone) "name") "o"
         [person "Bob" "paris"; person "alice" "Oslo"; person "Dan" "Lima"]
       = Ok sorted
       /\ Permutation
            (filter (matchesQuery "o")
               [person "Bob" "paris"; person "alice" "Oslo";
                person "Dan" "Lima"])
            sorted
       /\ StronglySorted (inOrder (nextOrder SortNone) "name") sorted.
Proof.
  split; [reflexivity|].
  exact (filterContent_after_toggle (nameSorting SortNone) "name" SortNone "o"
           [person "Bob" "paris"; person "alice" "Oslo"; person "Dan" "Lima"]
           eq_refl eq_refl eq_refl).
Defined.




(** C9, as amended.  On rows that each have at least one property and hold
    strings only, the empty query lets every row pass and the filter does
    not fail: with no active sort the collection is returned unchanged and
    in order, and with an active sort on a column that every row has, the
    whole collection is returned sorted by that column in its direction. *)
Theorem filterContent_empty_query `{Collator} `{!CollatorLaws}
    (sorting : sortingState) (content : list row) :
  forallb stringRow content = true ->
  (activeCategory sorting = None ->
   filterContent sorting "" content = Ok content)
  /\ (forall category,
        activeCategory sorting = Some category ->
        forallb (fun r => hasOwnProperty r category) content = true ->
        exists order sorted,
          lookup sorting category = Some order
          /\ (order = Ascending \/ order = Descending)
          /\ filterContent sorting "" content = Ok sorted
          /\ Permutation content sorted
          /\ StronglySorted (inOrder order category) sorted).
Proof.
  intros Hrows. split.
  - intros Hnone. rewrite filterContent_empty_query_passes by exact Hrows.
    now rewrite Hnone.
  - intros category Hactive Hcol.
    destruct (activeCategory_lookup sorting category Hactive)
      as [order [Hl Horder]].
    rewrite <- (filter_empty_query content Hrows) in Hcol.
    destruct (filterContent_active_rows sorting "" content category order
                Hactive Hl (stringRows_allStrings content Hrows) Hcol)
      as [sorted Hsorted].
    rewrite (filter_empty_query content Hrows) in Hsorted.
    exists order, sorted. split; [exact Hl|]. split; [exact Horder|].
    exact Hsorted.
Qed.

Lemma filterContent_empty_query_witness :
  forallb stringRow [person "Bob" "paris"; person "alice" "Oslo"] = true
  /\ filterContent (nameSorting SortNone) ""
       [person "Bob" "paris"; person "alice" "Oslo"]
     = Ok [person "Bob" "paris"; person "alice" "Oslo"]
  /\ exists order sorted,
       lookup (nameSorting Descending) "name" = Some order
       /\ (order = Ascending \/ order = Descending)
       /\ filterContent (nameSorting Descending) ""
            [person "Bob" "paris"; person "alice" "Oslo"]
          = Ok sorted
       /\ Permutation [person "Bob" "paris"; person "alice" "Oslo"] sorted
       /\ StronglySorted (inOrder order "name") sorted.
Proof.
  split; [reflexivity|]. split.
  - exact (proj1 (filterContent_empty_query (nameSorting SortNone)
                    [person "Bob" "paris"; person "alice" "Oslo"] eq_refl)
                 eq_refl).
  - exact (proj2 (filterContent_empty_query (nameSorting Descending)
                    [person "Bob" "paris"; person "alice" "Oslo"] eq_refl)
                 "name" eq_refl eq_refl).
Defined.

(** * Further properties of the value renderer *)

(** X28.  A value that is not a string is never formatted as a date:
    whatever dayjs answers for it, the cell shows the value itself. *)
Theorem renderProperty_keeps_non_strings `{Dayjs}
    (dateFormat : option string) (r : row) (c : column) :
  hasOwnProperty r (category c) = true ->
  isStringValue (get r (category c)) = false ->
  renderProperty dateFormat r c = get r (category c).
Proof. apply renderProperty_not_string. Qed.

Lemma renderProperty_keeps_non_strings_witness :
  @renderProperty (dayjsHost 0 0) (Some "MM/DD/YY")
                  [("age", VNum 1682899200000)]
                  {| category := "age"; formattedCategory := "Age" |}
  = VNum 1682899200000.
Proof.
  exact (@renderProperty_keeps_non_strings (dayjsHost 0 0) (Some "MM/DD/YY")
           [("age", VNum 1682899200000)]
           {| category := "age"; formattedCategory := "Age" |}
           eq_refl eq_refl).
Defined.
